(** * A shallow embedding of NDFirestORM's core (src/core/Model.ts,
    src/core/Collection.ts, src/core/ModelFactory.ts).

    The document database service is external: the store is a finite map
    from (collection path, document id) to the stored fields, and the
    service's where-filter and orderBy semantics are parameters of the
    development (Section [Firestore] below). *)

From Stdlib Require Import ZArith String.
From stdpp Require Import base gmap strings list pretty.
Open Scope string_scope.

(* ------------------------------------------------------------------ *)
(** ** JS values and objects *)

(** Field values: strings, numbers (integral), booleans, null, undefined,
    the [serverTimestamp()] sentinel and a [new Date()] (milliseconds). *)
Inductive value :=
  | VStr (s : string)
  | VNum (z : Z)
  | VBool (b : bool)
  | VNull
  | VUndef
  | VServerTs
  | VDate (t : Z).

#[global] Instance value_eq_dec : EqDecision value.
Proof. solve_decision. Defined.

(** A JS object: its own properties in insertion order (keys unique). *)
Definition obj := list (string * value).

(** [o[k]] *)
Fixpoint obj_get (o : obj) (k : string) : option value :=
  match o with
  | [] => None
  | (k', v) :: o' => if String.eqb k k' then Some v else obj_get o' k
  end.

(** [o[k] = v]: an existing property keeps its position, a new one is
    appended. *)
Fixpoint obj_set (o : obj) (k : string) (v : value) : obj :=
  match o with
  | [] => [(k, v)]
  | (k', v') :: o' =>
      if String.eqb k k' then (k, v) :: o' else (k', v') :: obj_set o' k v
  end.

(** [delete o[k]] *)
Definition obj_delete (o : obj) (k : string) : obj :=
  List.filter (fun kv => negb (String.eqb k kv.1)) o.

(** [{ ...a, ...b }] *)
Definition obj_spread (a b : obj) : obj :=
  fold_left (fun acc kv => obj_set acc kv.1 kv.2) b a.

(** JS truthiness of a value ([!!v]). *)
Definition truthy (v : value) : bool :=
  match v with
  | VStr s => negb (String.eqb s "")
  | VNum z => negb (Z.eqb z 0)
  | VBool b => b
  | VNull | VUndef => false
  | VServerTs | VDate _ => true
  end.

(** [o.id === undefined] *)
Definition id_undefined (o : obj) : bool :=
  match obj_get o "id" with
  | None | Some VUndef => true
  | Some _ => false
  end.

(** [!!o.id] *)
Definition id_truthy (o : obj) : bool :=
  match obj_get o "id" with
  | None => false
  | Some v => truthy v
  end.

(** [Model.normalizeId]: [typeof id === 'number' ? id.toString() : id];
    a non-string, non-number id is rejected by the SDK's [doc()]. *)
Definition normalizeId (id : value) : option string :=
  match id with
  | VNum z => Some (pretty z)
  | VStr s => Some s
  | _ => None
  end.

(* ------------------------------------------------------------------ *)
(** ** JSON.stringify, as used by [Model.isDirty] *)

(** The JSON text of a value; [None] for [undefined], which
    [JSON.stringify] drops from objects.  Distinct JSON trees have
    distinct texts, so comparing trees compares the strings. *)
Inductive json :=
  | JStr (s : string)
  | JNum (z : Z)
  | JBool (b : bool)
  | JNull
  | JSentinel
  | JDate (t : Z).

#[global] Instance json_eq_dec : EqDecision json.
Proof. solve_decision. Defined.

Definition json_of_value (v : value) : option json :=
  match v with
  | VStr s => Some (JStr s)
  | VNum z => Some (JNum z)
  | VBool b => Some (JBool b)
  | VNull => Some JNull
  | VUndef => None
  | VServerTs => Some JSentinel
  | VDate t => Some (JDate t)
  end.

Definition stringify (o : obj) : list (string * json) :=
  omap (fun kv => (fun j => (kv.1, j)) <$> json_of_value kv.2) o.

(* ------------------------------------------------------------------ *)
(** ** The world: store, id generator, clock, I/O trace, configuration *)

Definition key := (string * string)%type.

(** One storage write. *)
Inductive write :=
  | WSet (k : key) (o : obj)
  | WUpdate (k : key) (o : obj)
  | WDelete (k : key).

(** Network I/O as seen from the client. *)
Inductive io_event :=
  | IORead (path : string)
  | IOWrite (w : write)
  | IOCommit (ws : list write).

(** [OrmConfig] of src/core/ModelFactory.ts (the cache part is unused). *)
Record OrmConfig := { cfg_timestamps : bool; cfg_softDeletes : bool }.

Definition defaultConfig : OrmConfig :=
  {| cfg_timestamps := true; cfg_softDeletes := false |}.

Record world := {
  w_store : gmap key obj;
  w_next : nat;
  w_clock : Z;
  w_trace : list io_event;
  w_config : OrmConfig
}.

Definition set_store (s : gmap key obj) (w : world) : world :=
  {| w_store := s; w_next := w_next w; w_clock := w_clock w;
     w_trace := w_trace w; w_config := w_config w |}.
Definition log (e : io_event) (w : world) : world :=
  {| w_store := w_store w; w_next := w_next w; w_clock := w_clock w;
     w_trace := w_trace w ++ [e]; w_config := w_config w |}.
Definition bump (w : world) : world :=
  {| w_store := w_store w; w_next := S (w_next w); w_clock := w_clock w;
     w_trace := w_trace w; w_config := w_config w |}.

(** [ModelFactory.initialize]: [config = { ...defaultConfig, ...config }]. *)
Definition initialize (cfg : OrmConfig) (w : world) : world :=
  {| w_store := w_store w; w_next := w_next w; w_clock := w_clock w;
     w_trace := w_trace w; w_config := cfg |}.

(* ------------------------------------------------------------------ *)
(** ** A state and error monad for async code that may throw *)

Inductive res (A : Type) :=
  | Ok (a : A)
  | Err (msg : string).
Arguments Ok {A} a.
Arguments Err {A} msg.

Definition M (A : Type) := world -> res A * world.

Definition ret {A} (a : A) : M A := fun w => (Ok a, w).
Definition throw {A} (msg : string) : M A := fun w => (Err msg, w).
Definition bind {A B} (m : M A) (f : A -> M B) : M B :=
  fun w => match m w with
           | (Ok a, w') => f a w'
           | (Err e, w') => (Err e, w')
           end.

Notation "x <- m ;; k" := (bind m (fun x => k))
  (at level 100, m at next level, right associativity).
Notation "m ;;; k" := (bind m (fun _ => k))
  (at level 100, right associativity).

Definition modify (f : world -> world) : M unit := fun w => (Ok tt, f w).
Definition gets {A} (f : world -> A) : M A := fun w => (Ok (f w), w).

Definition of_option {A} (msg : string) (o : option A) : M A :=
  match o with Some a => ret a | None => throw msg end.

(* ------------------------------------------------------------------ *)
(** ** The storage client's single-document primitives *)

(** Document ids minted by [addDoc] / [doc(collectionRef)]. *)
Definition auto_id (n : nat) : string := "auto" ++ pretty n.

(** Applying a write to the store; an update of a missing document fails. *)
Definition apply_write (s : gmap key obj) (wr : write) : option (gmap key obj) :=
  match wr with
  | WSet k o => Some (<[k := o]> s)
  | WUpdate k o =>
      match s !! k with
      | Some d => Some (<[k := obj_spread d o]> s)
      | None => None
      end
  | WDelete k => Some (delete k s)
  end.

(** One write round trip ([setDoc], [updateDoc], [deleteDoc]). *)
Definition write1 (wr : write) : M unit :=
  fun w =>
    let w1 := log (IOWrite wr) w in
    match apply_write (w_store w) wr with
    | Some s => (Ok tt, set_store s w1)
    | None => (Err "not-found", w1)
    end.

Definition setDoc (k : key) (o : obj) : M unit := write1 (WSet k o).
Definition updateDoc (k : key) (o : obj) : M unit := write1 (WUpdate k o).
Definition deleteDoc (k : key) : M unit := write1 (WDelete k).

(** [doc(collectionRef)]: a fresh id, no I/O. *)
Definition newDocId : M string :=
  n <- gets w_next ;; modify bump ;;; ret (auto_id n).

Definition addDoc (coll : string) (o : obj) : M string :=
  id <- newDocId ;; setDoc (coll, id) o ;;; ret id.

(** [getDoc]: one read. *)
Definition getDoc (k : key) : M (option obj) :=
  modify (log (IORead (k.1 ++ "/" ++ k.2))) ;;;
  s <- gets w_store ;; ret (s !! k).

(** An atomic commit of several writes (a transaction or a write batch):
    all writes apply, or none. *)
Fixpoint apply_writes (s : gmap key obj) (ws : list write) : option (gmap key obj) :=
  match ws with
  | [] => Some s
  | wr :: ws' => match apply_write s wr with
                 | Some s' => apply_writes s' ws'
                 | None => None
                 end
  end.

Definition commit (ws : list write) : M unit :=
  fun w =>
    let w1 := log (IOCommit ws) w in
    match apply_writes (w_store w) ws with
    | Some s => (Ok tt, set_store s w1)
    | None => (Err "commit failed", w1)
    end.

(* ------------------------------------------------------------------ *)
(** ** [Model]: classes and instances *)

(** The static side of a model subclass: [collectionName] and the
    instance-field initialisers [timestamps] / [softDeletes] (the base
    class declares [timestamps = true], [softDeletes = false]). *)
Record model_class := {
  collectionName : string;
  cls_timestamps : bool;
  cls_softDeletes : bool
}.

Definition base_class (name : string) : model_class :=
  {| collectionName := name; cls_timestamps := true; cls_softDeletes := false |}.

(** A model instance: [attributes], [original], [exists] and the two
    instance configuration fields. *)
Record instance := {
  i_class : model_class;
  attributes : obj;
  original : obj;
  exists_ : bool;
  timestamps : bool;
  softDeletes : bool
}.

Definition with_attrs (a : obj) (m : instance) : instance :=
  {| i_class := i_class m; attributes := a; original := original m;
     exists_ := exists_ m; timestamps := timestamps m; softDeletes := softDeletes m |}.
Definition with_original (o : obj) (m : instance) : instance :=
  {| i_class := i_class m; attributes := attributes m; original := o;
     exists_ := exists_ m; timestamps := timestamps m; softDeletes := softDeletes m |}.
Definition with_exists (b : bool) (m : instance) : instance :=
  {| i_class := i_class m; attributes := attributes m; original := original m;
     exists_ := b; timestamps := timestamps m; softDeletes := softDeletes m |}.

(** [fill(data)]: [this.attributes = { ...this.attributes, ...data }]. *)
Definition fill (data : obj) (m : instance) : instance :=
  with_attrs (obj_spread (attributes m) data) m.

(** [new Model(data)]: [if (data) { this.fill(data); this.original = { ...data }; }]. *)
Definition new_model (c : model_class) (data : option obj) : instance :=
  let m0 := {| i_class := c; attributes := []; original := []; exists_ := false;
               timestamps := cls_timestamps c; softDeletes := cls_softDeletes c |} in
  match data with
  | Some d => with_original (obj_spread [] d) (fill d m0)
  | None => m0
  end.

(** [isDirty()]: [JSON.stringify(this.attributes) !== JSON.stringify(this.original)]. *)
Definition isDirty (m : instance) : bool :=
  if decide (stringify (attributes m) = stringify (original m)) then false else true.

(** [set(key, value)]: [this.attributes[key] = value]. *)
Definition set (k : string) (v : value) (m : instance) : instance :=
  with_attrs (obj_set (attributes m) k v) m.

(** [prepareDataForSave(isUpdate)]. *)
Definition prepareDataForSave (isUpdate : bool) (m : instance) : obj :=
  let data := obj_delete (attributes m) "id" in
  if timestamps m then
    let data :=
      if isUpdate then data
      else obj_set data "createdAt"
             (match obj_get data "createdAt" with
              | Some v => if truthy v then v else VServerTs
              | None => VServerTs
              end) in
    obj_set data "updatedAt" VServerTs
  else data.

Definition coll_of (m : instance) : string := collectionName (i_class m).

(** The normalised [this.attributes.id]. *)
Definition normalized_id (m : instance) : M string :=
  of_option "invalid document id"
    (match obj_get (attributes m) "id" with
     | Some v => normalizeId v
     | None => None
     end).

(** [performCreate()]. *)
Definition performCreate (m : instance) : M instance :=
  let dataToSave := prepareDataForSave false m in
  if negb (id_undefined (attributes m)) then
    nid <- normalized_id m ;;
    setDoc (coll_of m, nid) dataToSave ;;;
    ret (with_exists true (with_original (attributes m) m))
  else
    nid <- addDoc (coll_of m) dataToSave ;;
    let a := obj_set (attributes m) "id" (VStr nid) in
    ret (with_exists true (with_original a (with_attrs a m))).

(** [performUpdate()]. *)
Definition performUpdate (m : instance) : M instance :=
  if id_undefined (attributes m) then throw "Cannot update model without ID"
  else
    nid <- normalized_id m ;;
    updateDoc (coll_of m, nid) (prepareDataForSave true m) ;;;
    ret (with_original (attributes m) m).

(** [save()]. *)
Definition save (m : instance) : M instance :=
  if exists_ m then performUpdate m else performCreate m.

(** [update(data)] (instance). *)
Definition update (data : obj) (m : instance) : M instance :=
  save (fill data m).

(** [performDelete()]. *)
Definition performDelete (m : instance) : M instance :=
  nid <- normalized_id m ;;
  deleteDoc (coll_of m, nid) ;;;
  ret (with_exists false m).

(** [performSoftDelete()]: [this.attributes.deletedAt = new Date(); await this.save()]. *)
Definition performSoftDelete (m : instance) : M instance :=
  now <- gets w_clock ;;
  save (set "deletedAt" (VDate now) m).

(** [delete()] (instance). *)
Definition delete_ (m : instance) : M instance :=
  if negb (exists_ m) || negb (id_truthy (attributes m)) then
    throw "Cannot delete a model that does not exist"
  else if softDeletes m then performSoftDelete m
  else performDelete m.

(** Static [create(data, customId?)]. *)
Definition create (c : model_class) (data : obj) (customId : option value) : M instance :=
  let m := new_model c (Some data) in
  let m := match customId with
           | Some id => with_attrs (obj_set (attributes m) "id" id) m
           | None => m
           end in
  save m.

(** Static [update(id, data)]. *)
Definition static_update (c : model_class) (id : value) (data : obj) : M unit :=
  nid <- of_option "invalid document id" (normalizeId id) ;;
  let updateData := obj_delete (obj_spread [] data) "id" in
  let updateData := obj_set updateData "updatedAt" VServerTs in
  updateDoc (collectionName c, nid) updateData.

(** [QueryBuilder.find(id)] / static [find]: [{ id: docSnap.id, ...docSnap.data() }]. *)
Definition find_in (coll id : string) : M (option obj) :=
  d <- getDoc (coll, id) ;;
  ret (match d with
       | Some o => Some (obj_spread [("id", VStr id)] o)
       | None => None
       end).

Definition find (c : model_class) (id : value) : M (option obj) :=
  nid <- of_option "invalid document id" (normalizeId id) ;;
  find_in (collectionName c) nid.

(** Static [destroy(id)]. *)
Definition destroy (c : model_class) (id : value) : M unit :=
  d <- find c id ;;
  match d with
  | Some data => delete_ (with_exists true (new_model c (Some data))) ;;; ret tt
  | None => ret tt
  end.

(* ------------------------------------------------------------------ *)
(** ** Queries (src/core/Collection.ts, class [QueryBuilder]) *)

(** A document snapshot: [doc.id] and [doc.data()]. *)
Record snap := { snap_id : string; snap_data : obj }.

(** [{ id: doc.id, ...(doc.data()) }] *)
Definition to_plain (d : snap) : obj := obj_spread [("id", VStr (snap_id d))] (snap_data d).

(** The query constraints the builder accumulates. *)
Inductive constraint :=
  | CWhere (field op : string) (v : value)
  | COrderBy (field dir : string)
  | CLimit (n : nat)
  | CStartAfter (cursor : snap)
  | CEndBefore (cursor : snap).

(** The documents of one collection path, in the store's key order. *)
Definition coll_docs (s : gmap key obj) (coll : string) : list snap :=
  omap (fun kv : key * obj =>
          if String.eqb kv.1.1 coll
          then Some {| snap_id := kv.1.2; snap_data := kv.2 |} else None)
       (map_to_list s).

(** [startAfter(cursor)] on a result list in query order: the documents
    after the cursor document. *)
Fixpoint after (c : snap) (l : list snap) : list snap :=
  match l with
  | [] => []
  | d :: l' => if String.eqb (snap_id d) (snap_id c) then l' else after c l'
  end.

(** [endBefore(cursor)]: the documents before the cursor document. *)
Fixpoint before (c : snap) (l : list snap) : list snap :=
  match l with
  | [] => []
  | d :: l' => if String.eqb (snap_id d) (snap_id c) then [] else d :: before c l'
  end.

(** The last constraint of a kind wins, as in the SDK's [query()]. *)
Fixpoint last_limit (cs : list constraint) : option nat :=
  match cs with
  | [] => None
  | CLimit n :: cs' => match last_limit cs' with Some m => Some m | None => Some n end
  | _ :: cs' => last_limit cs'
  end.

Fixpoint last_start (cs : list constraint) : option snap :=
  match cs with
  | [] => None
  | CStartAfter c :: cs' => match last_start cs' with Some m => Some m | None => Some c end
  | _ :: cs' => last_start cs'
  end.

Fixpoint last_end (cs : list constraint) : option snap :=
  match cs with
  | [] => None
  | CEndBefore c :: cs' => match last_end cs' with Some m => Some m | None => Some c end
  | _ :: cs' => last_end cs'
  end.

Definition orderBys (cs : list constraint) : list (string * string) :=
  omap (fun c => match c with COrderBy f d => Some (f, d) | _ => None end) cs.

Record QueryBuilder := {
  qb_class : model_class;
  qb_coll : string;           (** [customCollectionRef || modelConstructor.getCollectionRef()] *)
  constraints : list constraint
}.

Definition with_constraints (cs : list constraint) (b : QueryBuilder) : QueryBuilder :=
  {| qb_class := qb_class b; qb_coll := qb_coll b; constraints := cs |}.

(** Builder methods: [this.constraints.push(...); return this]. *)
Definition qb_where (f op : string) (v : value) (b : QueryBuilder) : QueryBuilder :=
  with_constraints (constraints b ++ [CWhere f op v]) b.
Definition qb_orderBy (f dir : string) (b : QueryBuilder) : QueryBuilder :=
  with_constraints (constraints b ++ [COrderBy f dir]) b.
Definition qb_limit (n : nat) (b : QueryBuilder) : QueryBuilder :=
  with_constraints (constraints b ++ [CLimit n]) b.

(** [Model.query()] and the static / instance [subcollection(...)]. *)
Definition query (c : model_class) : QueryBuilder :=
  {| qb_class := c; qb_coll := collectionName c; constraints := [] |}.
Definition subcollection_path (c : model_class) (parentId name : string) : string :=
  collectionName c ++ "/" ++ parentId ++ "/" ++ name.

(** [QueryBuilder.destroy(id)]. *)
Definition qb_destroy (b : QueryBuilder) (id : string) : M unit :=
  deleteDoc (qb_coll b, id).

Definition BATCH_SIZE : nat := 500.

(** [doc(collectionRef, docData.id)] *)
Definition doc_key (coll : string) (d : obj) : M key :=
  match obj_get d "id" with
  | Some (VStr id) => ret (coll, id)
  | _ => throw "invalid document id"
  end.

Fixpoint mapM {A B} (f : A -> M B) (l : list A) : M (list B) :=
  match l with
  | [] => ret []
  | x :: l' => y <- f x ;; ys <- mapM f l' ;; ret (y :: ys)
  end.

(** The [for (let i = 0; i < docs.length; i += BATCH_SIZE)] loop of
    [deleteAll]; [fuel] bounds the iterations ([docs.length] is enough,
    as [i] grows by [BATCH_SIZE] per round). *)
Fixpoint deleteAll_loop (fuel : nat) (coll : string) (docs : list obj)
    (i deletedCount : nat) : M nat :=
  match fuel with
  | 0 => ret deletedCount
  | S f =>
      if Nat.ltb i (length docs) then
        let batchDocs := firstn BATCH_SIZE (skipn i docs) in
        ks <- mapM (doc_key coll) batchDocs ;;
        commit (map WDelete ks) ;;;
        deleteAll_loop f coll docs (i + BATCH_SIZE) (deletedCount + length batchDocs)
      else ret deletedCount
  end.

Section Firestore.

(** The service's evaluation of a where-filter on a document's fields,
    and its ordering of a result set for the given orderBy keys. *)
Variable where_holds : string -> string -> value -> obj -> bool.
Variable order_docs : list (string * string) -> list snap -> list snap.

(** The documents the service returns for [query(collectionRef, ...cs)]. *)
Definition run_query (s : gmap key obj) (coll : string) (cs : list constraint) : list snap :=
  let base := List.filter
                (fun d => forallb (fun c => match c with
                                            | CWhere f op v => where_holds f op v (snap_data d)
                                            | _ => true
                                            end) cs)
                (coll_docs s coll) in
  let ordered := order_docs (orderBys cs) base in
  let started := match last_start cs with Some c => after c ordered | None => ordered end in
  let ended := match last_end cs with Some c => before c started | None => started end in
  match last_limit cs with Some n => firstn n ended | None => ended end.

(** [getDocs(query(collectionRef, ...cs))]: one read. *)
Definition getDocs (coll : string) (cs : list constraint) : M (list snap) :=
  modify (log (IORead coll)) ;;;
  s <- gets w_store ;; ret (run_query s coll cs).

(** [QueryBuilder.get()]. *)
Definition qb_get (b : QueryBuilder) : M (list obj) :=
  docs <- getDocs (qb_coll b) (constraints b) ;; ret (map to_plain docs).

(** [QueryBuilder.first()]: [this.limit(1)] mutates the builder itself;
    the updated builder is returned next to the result. *)
Definition qb_first (b : QueryBuilder) : M (option obj * QueryBuilder) :=
  let b := qb_limit 1 b in
  results <- qb_get b ;;
  ret (head results, b).

(** [QueryBuilder.deleteAll()]. *)
Definition qb_deleteAll (b : QueryBuilder) : M nat :=
  docs <- qb_get b ;;
  if Nat.eqb (length docs) 0 then ret 0
  else deleteAll_loop (length docs) (qb_coll b) docs 0 0.

(** A JS cursor argument / result: [null], [undefined] or a snapshot. *)
Inductive jsref :=
  | JRNull
  | JRUndef
  | JRDoc (d : snap).

Record simple_page := {
  sp_data : list obj;
  nextCursor : jsref;
  hasMorePages : bool
}.

(** [QueryBuilder.simplePaginate({ perPage, cursor })]. *)
Definition simplePaginate (b : QueryBuilder) (perPage : nat) (cursor : jsref) : M simple_page :=
  let paginatedConstraints :=
    (constraints b ++ [CLimit (perPage + 1)] ++
     (match cursor with JRDoc d => [CStartAfter d] | _ => [] end))%list in
  snapshot <- getDocs (qb_coll b) paginatedConstraints ;;
  let hasMore := Nat.ltb perPage (length snapshot) in
  let docs := if hasMore then firstn perPage snapshot else snapshot in
  let next := if hasMore then
                match last docs with Some d => JRDoc d | None => JRUndef end
              else JRNull in
  ret {| sp_data := map to_plain docs; nextCursor := next; hasMorePages := hasMore |}.

(** The caller's loop of the pagination contract: start without a cursor,
    pass each [nextCursor] back, stop once [hasMorePages] is false, and
    concatenate the pages; [None] when [fuel] calls do not reach the end. *)
Fixpoint drain_simplePaginate (fuel : nat) (b : QueryBuilder) (perPage : nat)
    (cursor : jsref) : M (option (list obj)) :=
  match fuel with
  | 0 => ret None
  | S f =>
      r <- simplePaginate b perPage cursor ;;
      if hasMorePages r then
        rest <- drain_simplePaginate f b perPage (nextCursor r) ;;
        ret (option_map (fun l => (sp_data r ++ l)%list) rest)
      else ret (Some (sp_data r))
  end.


(* ------------------------------------------------------------------ *)
(** ** [TransactionContext], [BatchContext], [Model.transaction], [Model.batch] *)

(** The queued operations; an instance is referred to by its slot in the
    heap of model objects the callback holds, so that later mutations of
    the object are seen by the replay, as in JS. *)
Inductive tx_op :=
  | OpCreate (r : nat)
  | OpUpdateInst (r : nat)
  | OpUpdateById (c : model_class) (id : value) (data : obj)
  | OpDeleteInst (r : nat)
  | OpDeleteById (c : model_class) (id : value)
  | OpDeleteSub (r : nat) (name : string) (docs : list obj).

(** What a callback does, step by step: its own reads and writes through
    the static API, in-memory mutations of the objects it holds, calls on
    the context, and throwing. *)
Inductive action :=
  | ALoad (c : model_class) (id : value)
  | ASet (r : nat) (k : string) (v : value)
  | ACreate (c : model_class) (data : obj) (customId : option value)
  | AUpdate (r : nat) (data : obj)
  | AUpdateById (c : model_class) (id : value) (data : obj)
  | ADelete (r : nat)
  | ADeleteById (c : model_class) (id : value)
  | ADeleteSubcollection (r : nat) (name : string)
  | AStaticUpdate (c : model_class) (id : value) (data : obj)
  | AThrow (msg : string).

Definition heap := list instance.

Definition deref (h : heap) (r : nat) : M instance :=
  of_option "TypeError: model is not an object" (h !! r).

(** The static [load(id)]. *)
Definition load (c : model_class) (id : value) : M (option instance) :=
  d <- find c id ;;
  ret (match d with
       | Some data => Some (with_original (obj_spread [] data)
                             (with_exists true (new_model c (Some data))))
       | None => None
       end).



(** [TransactionContext.deleteSubcollection(parentModel, name)]: reads the
    subcollection now ([parentModel.subcollection(name).get()]). *)
Definition ctx_deleteSubcollection (m : instance) (r : nat) (name : string)
    : M tx_op :=
  if negb (id_truthy (attributes m)) then
    throw "Cannot delete subcollection without parent document ID"
  else
    nid <- normalized_id m ;;
    docs <- qb_get {| qb_class := i_class m;
                      qb_coll := subcollection_path (i_class m) nid name;
                      constraints := [] |} ;;
    ret (OpDeleteSub r name docs).

(** One step of the callback; [in_batch] selects [BatchContext], which
    has no [deleteSubcollection]. *)
Definition run_action (in_batch : bool) (a : action) (h : heap) (q : list tx_op)
    : M (heap * list tx_op) :=
  match a with
  | ALoad c id =>
      o <- load c id ;;
      ret (match o with Some m => ((h ++ [m])%list, q) | None => (h, q) end)
  | ASet r k v => m <- deref h r ;; ret (<[r := set k v m]> h, q)
  | ACreate c data customId =>
      let m := new_model c (Some data) in
      let m := match customId with
               | Some id => with_attrs (obj_set (attributes m) "id" id) m
               | None => m
               end in
      ret ((h ++ [m])%list, (q ++ [OpCreate (length h)])%list)
  | AUpdate r data =>
      m <- deref h r ;; ret (<[r := fill data m]> h, (q ++ [OpUpdateInst r])%list)
  | AUpdateById c id data => ret (h, (q ++ [OpUpdateById c id data])%list)
  | ADelete r => ret (h, (q ++ [OpDeleteInst r])%list)
  | ADeleteById c id => ret (h, (q ++ [OpDeleteById c id])%list)
  | ADeleteSubcollection r name =>
      if in_batch then throw "TypeError: ctx.deleteSubcollection is not a function"
      else
        m <- deref h r ;;
        op <- ctx_deleteSubcollection m r name ;;
        ret (h, (q ++ [op])%list)
  | AStaticUpdate c id data => static_update c id data ;;; ret (h, q)
  | AThrow msg => throw msg
  end.

(** [await callback(ctx)]. *)
Fixpoint run_callback (in_batch : bool) (cb : list action) (h : heap) (q : list tx_op)
    : M (heap * list tx_op) :=
  match cb with
  | [] => ret (h, q)
  | a :: cb' => hq <- run_action in_batch a h q ;;
                run_callback in_batch cb' hq.1 hq.2
  end.

(** Replaying one queued operation: the writes it adds to the
    transaction or batch (no I/O yet), and the objects it mutates. *)
Definition replay_op (op : tx_op) (h : heap) : M (heap * list write) :=
  match op with
  | OpCreate r =>
      m <- deref h r ;;
      let dataToSave := prepareDataForSave false m in
      if negb (id_undefined (attributes m)) then
        nid <- normalized_id m ;;
        ret (<[r := with_original (attributes m) (with_exists true m)]> h,
             [WSet (coll_of m, nid) dataToSave])
      else
        id <- newDocId ;;
        let a := obj_set (attributes m) "id" (VStr id) in
        ret (<[r := with_original a (with_exists true (with_attrs a m))]> h,
             [WSet (coll_of m, id) dataToSave])
  | OpUpdateInst r =>
      m <- deref h r ;;
      if id_undefined (attributes m) then throw "Cannot update model without ID"
      else
        nid <- normalized_id m ;;
        ret (<[r := with_original (attributes m) m]> h,
             [WUpdate (coll_of m, nid) (prepareDataForSave true m)])
  | OpUpdateById c id data =>
      nid <- of_option "invalid document id" (normalizeId id) ;;
      let updateData := obj_set (obj_delete (obj_spread [] data) "id") "updatedAt" VServerTs in
      ret (h, [WUpdate (collectionName c, nid) updateData])
  | OpDeleteInst r =>
      m <- deref h r ;;
      if id_undefined (attributes m) then throw "Cannot delete model without ID"
      else
        nid <- normalized_id m ;;
        ret (<[r := with_exists false m]> h, [WDelete (coll_of m, nid)])
  | OpDeleteById c id =>
      nid <- of_option "invalid document id" (normalizeId id) ;;
      ret (h, [WDelete (collectionName c, nid)])
  | OpDeleteSub r name docs =>
      m <- deref h r ;;
      if String.eqb name "" then throw "Invalid subcollection delete operation"
      else
        nid <- normalized_id m ;;
        ks <- mapM (doc_key (subcollection_path (i_class m) nid name)) docs ;;
        ret (h, map WDelete ks)
  end.

Fixpoint replay (ops : list tx_op) (h : heap) : M (heap * list write) :=
  match ops with
  | [] => ret (h, [])
  | op :: ops' =>
      hw <- replay_op op h ;;
      hw' <- replay ops' hw.1 ;;
      ret (hw'.1, (hw.2 ++ hw'.2)%list)
  end.

(** [Model.transaction(callback)]: run the callback to collect the
    operations, then replay them inside [runTransaction], whose writes
    commit atomically and only if the replay does not throw. *)
Definition transaction (cb : list action) : M unit :=
  hq <- run_callback false cb [] [] ;;
  hw <- replay hq.2 hq.1 ;;
  commit hw.2.

(** [Model.batch(callback)]: the same with [writeBatch] and [batch.commit()]. *)
Definition batch (cb : list action) : M unit :=
  hq <- run_callback true cb [] [] ;;
  hw <- replay hq.2 hq.1 ;;
  commit hw.2.

(* ------------------------------------------------------------------ *)
(** ** More of [QueryBuilder] *)

(** [QueryBuilder.count()]: [(await this.get()).length]. *)
Definition qb_count (b : QueryBuilder) : M nat :=
  results <- qb_get b ;; ret (length results).

(** [QueryBuilder.exists()]: [count > 0]. *)
Definition qb_exists (b : QueryBuilder) : M bool :=
  count <- qb_count b ;; ret (Nat.ltb 0 count).

(** [QueryBuilder.firstOrFail()]: [first()], and a throw on [null]; the
    builder [first()] pushed [limit(1)] onto is returned as well. *)
Definition qb_firstOrFail (b : QueryBuilder) : M (obj * QueryBuilder) :=
  r <- qb_first b ;;
  match r.1 with
  | Some result => ret (result, r.2)
  | None => throw "No results found"
  end.


(** [QueryBuilder.update(id, data)]. *)
Definition qb_update (b : QueryBuilder) (id : string) (data : obj) : M unit :=
  now <- gets w_clock ;;
  let updateData := obj_set (obj_delete (obj_spread [] data) "id") "updatedAt" (VDate now) in
  updateDoc (qb_coll b, id) updateData.

(** [!!s] for an optional string argument. *)
Definition opt_truthy (s : option string) : bool :=
  match s with Some x => negb (String.eqb x "") | None => false end.

(** [getDoc(doc(collectionRef, id))], and the cursor constraint built
    from the snapshot when the document exists. *)
Definition cursor_doc (b : QueryBuilder) (id : string) (mk : snap -> constraint)
    : M (list constraint) :=
  cursorDoc <- getDoc (qb_coll b, id) ;;
  ret (match cursorDoc with
       | Some o => [mk {| snap_id := id; snap_data := o |}]
       | None => []
       end).

(** The cursor part of [cursorPaginate]: [if (afterCursor) ... else if
    (beforeCursor) ...]. *)
Definition cursor_constraints (b : QueryBuilder) (afterCursor beforeCursor : option string)
    : M (list constraint) :=
  let before_branch :=
    match beforeCursor with
    | Some bc => if negb (String.eqb bc "") then cursor_doc b bc CEndBefore else ret []
    | None => ret []
    end in
  match afterCursor with
  | Some a => if negb (String.eqb a "") then cursor_doc b a CStartAfter else before_branch
  | None => before_branch
  end.

Record cursor_page := {
  cp_data : list obj;
  cp_nextCursor : option string;
  cp_prevCursor : option string;
  hasNextPage : bool;
  hasPrevPage : bool
}.

(** [QueryBuilder.cursorPaginate({ perPage, afterCursor, beforeCursor })];
    [docs[docs.length - 1].id] on an empty [docs] is a [TypeError]. *)
Definition cursorPaginate (b : QueryBuilder) (perPage : nat)
    (afterCursor beforeCursor : option string) : M cursor_page :=
  cursorConstraints <- cursor_constraints b afterCursor beforeCursor ;;
  snapshot <- getDocs (qb_coll b)
                (constraints b ++ cursorConstraints ++ [CLimit (perPage + 1)])%list ;;
  let hasMore := Nat.ltb perPage (length snapshot) in
  let docs := if hasMore then firstn perPage snapshot else snapshot in
  nextCursor <- (if hasMore then
                   match last docs with
                   | Some d => ret (Some (snap_id d))
                   | None => throw "TypeError: Cannot read properties of undefined (reading 'id')"
                   end
                 else ret None) ;;
  ret {| cp_data := map to_plain docs;
         cp_nextCursor := nextCursor;
         cp_prevCursor := match head docs with Some d => Some (snap_id d) | None => None end;
         hasNextPage := hasMore;
         hasPrevPage := opt_truthy afterCursor || opt_truthy beforeCursor |}.

(** [getCountFromServer(query(collectionRef, ...cs))]: one aggregation
    request. *)
Definition getCount (coll : string) (cs : list constraint) : M nat :=
  modify (log (IORead coll)) ;;;
  s <- gets w_store ;; ret (length (run_query s coll cs)).

(** [Math.ceil(a / b)] for [b > 0]. *)
Definition ceil_div (a b : Z) : Z :=
  if Z.eqb (a mod b) 0 then (a / b)%Z else (a / b + 1)%Z.

Record page_meta := {
  pm_total : Z;
  pm_perPage : Z;
  pm_currentPage : Z;
  pm_lastPage : Z;
  pm_from : Z;
  pm_to : Z;
  pm_hasMorePages : bool
}.

Record paginated := {
  pg_data : list obj;
  pg_meta : page_meta;
  pg_firstDoc : option snap;
  pg_lastDoc : option snap
}.

(** [QueryBuilder.paginate({ perPage, page })]; the SDK's [limit(n)]
    throws unless [n > 0]. *)
Definition paginate (b : QueryBuilder) (perPage page : Z) : M paginated :=
  count <- getCount (qb_coll b) (constraints b) ;;
  let total := Z.of_nat count in
  let lastPage := ceil_div total perPage in
  let from := ((page - 1) * perPage + 1)%Z in
  let offset := ((page - 1) * perPage)%Z in
  if Z.leb perPage 0 then throw "Function limit() requires a positive number"
  else
    startAt <- (if Z.ltb 0 offset then
                  prevSnapshot <- getDocs (qb_coll b)
                                    (constraints b ++ [CLimit (Z.to_nat offset)])%list ;;
                  ret (match last prevSnapshot with
                       | Some lastDoc => [CStartAfter lastDoc]
                       | None => []
                       end)
                else ret []) ;;
    snapshot <- getDocs (qb_coll b) (constraints b ++ CLimit (Z.to_nat perPage) :: startAt)%list ;;
    let data := map to_plain snapshot in
    ret {| pg_data := data;
           pg_meta := {| pm_total := total;
                         pm_perPage := perPage;
                         pm_currentPage := page;
                         pm_lastPage := lastPage;
                         pm_from := if Nat.ltb 0 (length data) then from else 0%Z;
                         pm_to := if Nat.ltb 0 (length data)
                                  then (from + Z.of_nat (length data) - 1)%Z else 0%Z;
                         pm_hasMorePages := Z.ltb page lastPage |};
           pg_firstDoc := head snapshot;
           pg_lastDoc := last snapshot |}.

(* ------------------------------------------------------------------ *)
(** ** More of [Model] *)

(** [this.attributes.id] *)
Definition attr_id (o : obj) : value :=
  match obj_get o "id" with Some v => v | None => VUndef end.

(** Static [findOrFail(id)]; [`${id}`] of a string or a number is its
    [normalizeId]. *)
Definition findOrFail (c : model_class) (id : value) : M obj :=
  model <- find c id ;;
  match model with
  | Some o => ret o
  | None => throw ("Model not found with id: " ++
                   match normalizeId id with Some s => s | None => "" end)
  end.

(** [refresh()]. *)
Definition refresh (m : instance) : M instance :=
  if id_undefined (attributes m) then throw "Cannot refresh a model without an ID"
  else
    fresh <- load (i_class m) (attr_id (attributes m)) ;;
    match fresh with
    | Some f => ret (with_original (obj_spread [] (attributes f)) (with_attrs (attributes f) m))
    | None => ret m
    end.

(** [toJSON()]: [{ id: this.attributes.id, ...this.attributes }]. *)
Definition toJSON (m : instance) : obj :=
  obj_spread [("id", attr_id (attributes m))] (attributes m).

End Firestore.

(* ------------------------------------------------------------------ *)
(** ** Vocabulary of the statements *)

(** A world after some I/O: a new store and events appended to the trace. *)
Definition after_io (s : gmap key obj) (evs : list io_event) (w : world) : world :=
  {| w_store := s; w_next := w_next w; w_clock := w_clock w;
     w_trace := (w_trace w ++ evs)%list; w_config := w_config w |}.

(** The document a plain object [{ id, ... }] of a collection names. *)
Definition key_of (coll : string) (d : obj) : key :=
  match obj_get d "id" with
  | Some (VStr id) => (coll, id)
  | _ => (coll, "")
  end.

(** The store after deleting the given documents in turn. *)
Definition delete_keys (ks : list key) (s : gmap key obj) : gmap key obj :=
  fold_left (fun s k => delete k s) ks s.

(** The plain object carries a string [id]. *)
Definition has_str_id (d : obj) : Prop := exists id, obj_get d "id" = Some (VStr id).

(** The constraint list holds a [limit(n)]. *)
Definition has_limit (cs : list constraint) : bool :=
  existsb (fun c => match c with CLimit _ => true | _ => false end) cs.

(** Only [where] and [orderBy] constraints. *)
Definition plain_constraints (cs : list constraint) : bool :=
  forallb (fun c => match c with CWhere _ _ _ | COrderBy _ _ => true | _ => false end) cs.

(** The rows of the full result [L] a [simplePaginate] cursor leaves. *)
Definition remaining (L : list snap) (cursor : jsref) : list snap :=
  match cursor with JRDoc d => after d L | _ => L end.

(** The callback's own code makes no write through the static API. *)
Definition direct_writes_free (cb : list action) : bool :=
  forallb (fun a => match a with AStaticUpdate _ _ _ => false | _ => true end) cb.

(** [ctx.create], [ctx.update] and [ctx.delete], by instance or by id. *)
Definition ctx_write_action (a : action) : bool :=
  match a with
  | ACreate _ _ _ | AUpdate _ _ | AUpdateById _ _ _ | ADelete _ | ADeleteById _ _ => true
  | _ => false
  end.

(** The instance [load(id)] builds from the data [find(id)] returns. *)
Definition loaded (c : model_class) (data : obj) : instance :=
  with_original (obj_spread [] data) (with_exists true (new_model c (Some data))).

(** The [cursorPaginate] page of the rows [R] left after the cursor
    constraints, with the given [hasPrevPage]. *)
Definition cursor_page_of (P : nat) (R : list snap) (prev : bool) : cursor_page :=
  let page := firstn P R in
  {| cp_data := map to_plain page;
     cp_nextCursor := if Nat.ltb P (length R) then option_map snap_id (last page) else None;
     cp_prevCursor := option_map snap_id (head page);
     hasNextPage := Nat.ltb P (length R);
     hasPrevPage := prev |}.

(* ------------------------------------------------------------------ *)
(** ** Concrete inputs *)

Definition empty_world : world :=
  {| w_store := ∅; w_next := 0; w_clock := 0; w_trace := []; w_config := defaultConfig |}.

(** [class User extends Model { static collectionName = 'users' }] *)
Definition users : model_class := base_class "users".

(** A service whose filters all pass and which keeps the stored order. *)
Definition all_where (f op : string) (v : value) (o : obj) : bool := true.
Definition keep_order (os : list (string * string)) (l : list snap) : list snap := l.

(** One stored user. *)
Definition one_user : gmap key obj := {[("users", "u1") := [("name", VStr "A")]]}.

(** Three stored users. *)
Definition three_users : gmap key obj :=
  <[("users", "u3") := [("name", VStr "C")]]>
   (<[("users", "u2") := [("name", VStr "B")]]> one_user).

Definition users_world : world := set_store three_users empty_world.

(** A loaded [users/42] model. *)
Definition gym : instance :=
  with_exists true (new_model users (Some [("id", VStr "42")])).



(* ================================================================== *)
(** * Properties *)

(** ** Objects *)

Lemma obj_get_set (o : obj) (k f : string) (v : value) :
  obj_get (obj_set o k v) f = if String.eqb f k then Some v else obj_get o f.
Proof.
  induction o as [|[k' v'] o IH]; simpl.
  - destruct (String.eqb f k); reflexivity.
  - destruct (String.eqb k k') eqn:Ek; simpl.
    + apply String.eqb_eq in Ek; subst k'.
      destruct (String.eqb f k); reflexivity.
    + rewrite IH. destruct (String.eqb f k') eqn:Ef; [|reflexivity].
      apply String.eqb_eq in Ef; subst f.
      rewrite String.eqb_sym, Ek. reflexivity.
Qed.

Lemma obj_get_delete (o : obj) (k f : string) :
  obj_get (obj_delete o k) f = if String.eqb f k then None else obj_get o f.
Proof.
  unfold obj_delete.
  induction o as [|[k' v'] o IH]; simpl.
  - destruct (String.eqb f k); reflexivity.
  - destruct (String.eqb k k') eqn:Ek; simpl.
    + apply String.eqb_eq in Ek; subst k'.
      rewrite IH. destruct (String.eqb f k) eqn:Ef; reflexivity.
    + rewrite IH. destruct (String.eqb f k') eqn:Ef; [|reflexivity].
      apply String.eqb_eq in Ef; subst f.
      rewrite String.eqb_sym, Ek. reflexivity.
Qed.

Lemma obj_get_spread_other (a b : obj) (f : string) :
  obj_get b f = None -> obj_get (obj_spread a b) f = obj_get a f.
Proof.
  unfold obj_spread. revert a.
  induction b as [|[k v] b IH]; intros a Hb; simpl in *; [reflexivity|].
  destruct (String.eqb f k) eqn:Ef; [discriminate|].
  rewrite IH by exact Hb. rewrite obj_get_set, Ef. reflexivity.
Qed.

Lemma obj_set_same (o : obj) (k : string) (v : value) :
  obj_get o k = Some v -> obj_set o k v = o.
Proof.
  induction o as [|[k' v'] o IH]; simpl; [discriminate|].
  destruct (String.eqb k k') eqn:Ek; intros H.
  - injection H as ->. apply String.eqb_eq in Ek; subst. reflexivity.
  - rewrite IH by exact H. reflexivity.
Qed.

Lemma obj_get_notin (o : obj) (f : string) :
  ~ In f (map fst o) -> obj_get o f = None.
Proof.
  induction o as [|[k v] o IH]; simpl; intros Hn; [reflexivity|].
  destruct (String.eqb f k) eqn:E.
  - apply String.eqb_eq in E. subst. exfalso. apply Hn. left. reflexivity.
  - apply IH. intros Hi. apply Hn. right. exact Hi.
Qed.

Lemma in_keys_set (o : obj) (k f : string) (v : value) :
  In f (map fst (obj_set o k v)) <-> f = k \/ In f (map fst o).
Proof.
  induction o as [|[k' v'] o IH]; simpl.
  - split; [intros [H|[]]; left; congruence | intros [H|[]]; left; congruence].
  - destruct (String.eqb k k') eqn:E; simpl.
    + apply String.eqb_eq in E. subst. firstorder congruence.
    + rewrite IH. firstorder congruence.
Qed.

Lemma nodup_set (o : obj) (k : string) (v : value) :
  List.NoDup (map fst o) -> List.NoDup (map fst (obj_set o k v)).
Proof.
  induction o as [|[k' v'] o IH]; simpl; intros Hnd.
  - constructor; [intros []|constructor].
  - inversion Hnd as [|? ? Hni Hnd']; subst.
    destruct (String.eqb k k') eqn:E; simpl.
    + apply String.eqb_eq in E. subst. constructor; assumption.
    + constructor; [|apply IH; exact Hnd'].
      rewrite in_keys_set. intros [Hk|Hi]; [|contradiction].
      subst. rewrite String.eqb_refl in E. discriminate.
Qed.

Lemma nodup_spread (a b : obj) :
  List.NoDup (map fst a) -> List.NoDup (map fst (obj_spread a b)).
Proof.
  unfold obj_spread. revert a.
  induction b as [|[k v] b IH]; intros a Ha; simpl; [exact Ha|].
  apply IH. apply nodup_set. exact Ha.
Qed.

Lemma nodup_delete (o : obj) (k : string) :
  List.NoDup (map fst o) -> List.NoDup (map fst (obj_delete o k)).
Proof.
  unfold obj_delete.
  induction o as [|[k' v'] o IH]; simpl; intros Hnd; [constructor|].
  inversion Hnd as [|? ? Hni Hnd']; subst.
  destruct (negb (String.eqb k k')); simpl; [|apply IH; exact Hnd'].
  constructor; [|apply IH; exact Hnd'].
  intros Hi. apply Hni. apply in_map_iff in Hi as [[k1 v1] [Hk1 Hin]].
  apply filter_In in Hin as [Hin _]. simpl in Hk1. subst.
  apply in_map_iff. exists (k', v1). split; [reflexivity|exact Hin].
Qed.

Lemma obj_get_spread_unique (a b : obj) (f : string) (v : value) :
  List.NoDup (map fst b) -> obj_get b f = Some v -> obj_get (obj_spread a b) f = Some v.
Proof.
  unfold obj_spread. revert a.
  induction b as [|[k v'] b IH]; intros a Hnd Hb; simpl in *; [discriminate|].
  inversion Hnd as [|? ? Hni Hnd']; subst.
  destruct (String.eqb f k) eqn:E.
  - injection Hb as ->. apply String.eqb_eq in E. subst.
    fold (obj_spread (obj_set a k v) b).
    rewrite obj_get_spread_other by (apply obj_get_notin; exact Hni).
    rewrite obj_get_set, String.eqb_refl. reflexivity.
  - apply IH; assumption.
Qed.

Lemma nodup_update_payload (data : obj) :
  List.NoDup (map fst (obj_set (obj_delete (obj_spread [] data) "id") "updatedAt" VServerTs)).
Proof.
  apply nodup_set, nodup_delete, nodup_spread. constructor.
Qed.

Lemma json_of_value_inj (v1 v2 : value) (j : json) :
  json_of_value v1 = Some j -> json_of_value v2 = Some j -> v1 = v2.
Proof.
  destruct v1, v2; simpl; intros H1 H2; congruence.
Qed.

(** Writing a defined value that differs from the current one changes
    the JSON text of the object. *)
Lemma stringify_set_changes (o : obj) (k : string) (v : value) (j : json) :
  json_of_value v = Some j -> obj_get o k <> Some v ->
  stringify (obj_set o k v) <> stringify o.
Proof.
  intros Hj. unfold stringify.
  induction o as [|[k' v'] o IH]; simpl; intros Hne.
  - rewrite Hj. simpl. discriminate.
  - destruct (String.eqb k k') eqn:Ek.
    + apply String.eqb_eq in Ek; subst k'. simpl. rewrite Hj. simpl.
      destruct (json_of_value v') as [j'|] eqn:Hj'; simpl.
      * intros Heq. injection Heq as Hjj. subst j'.
        apply Hne. f_equal. symmetry. exact (json_of_value_inj _ _ _ Hj Hj').
      * intros Heq. apply (f_equal length) in Heq. simpl in Heq. lia.
    + simpl. destruct (json_of_value v'); simpl.
      * intros Heq. injection Heq. exact (IH Hne).
      * exact (IH Hne).
Qed.

(** ** The monad *)


Lemma isDirty_clean (m : instance) :
  original m = attributes m -> isDirty m = false.
Proof. unfold isDirty. intros ->. rewrite decide_True; reflexivity. Qed.

Ltac monad_simpl :=
  repeat (unfold bind, ret, throw, gets, modify, of_option in *; simpl in *).

(** A successful [save()] leaves the instance clean. *)
Lemma save_clean (m m' : instance) (w w' : world) :
  save m w = (Ok m', w') -> isDirty m' = false.
Proof.
  unfold save, performUpdate, performCreate, normalized_id, addDoc, newDocId,
    setDoc, updateDoc, write1.
  intros H. monad_simpl.
  repeat case_match; simplify_eq; apply isDirty_clean; reflexivity.
Qed.

(** ** Instance-level writes: [update(data)] and [delete()] *)

(** C3 (as stated fails): on an instance with [exists == false], the
    instance [update(data)] raises nothing and writes: it fills and saves,
    and [save()] creates the document. *)
Lemma instance_update_without_exists_writes :
  ~ (forall (m : instance) (data : obj) (w : world),
        exists_ m = false \/ id_truthy (attributes m) = false ->
        (exists e w', update data m w = (Err e, w') /\ w_store w' = w_store w) /\
        (exists e w', delete_ m w = (Err e, w') /\ w_store w' = w_store w)).
Proof.
  intros H.
  destruct (H (new_model users (Some [("name", VStr "A")])) [("name", VStr "B")]
              empty_world (or_introl eq_refl)) as [[e [w' [Hu Hs]]] _].
  vm_compute in Hu. discriminate.
Qed.

(** C3 (amended): [delete()] throws without any I/O unless [exists] holds
    and the id is truthy.  [update(data)] has no such check: with
    [exists == false] it creates the document (one [setDoc] write under a
    fresh id when the instance has none), and with [exists == true] but no
    id it throws "Cannot update model without ID" without any I/O. *)
Theorem instance_write_preconditions :
  (forall (m : instance) (w : world),
      exists_ m = false \/ id_truthy (attributes m) = false ->
      delete_ m w = (Err "Cannot delete a model that does not exist", w)) /\
  (forall (m : instance) (data : obj) (w : world),
      exists_ m = true -> id_undefined (attributes (fill data m)) = true ->
      update data m w = (Err "Cannot update model without ID", w)) /\
  (forall (m : instance) (data : obj) (w : world),
      exists_ m = false -> id_undefined (attributes (fill data m)) = true ->
      exists m' : instance,
        exists_ m' = true /\
        update data m w =
          (Ok m', after_io (<[(coll_of m, auto_id (w_next w)) :=
                                 prepareDataForSave false (fill data m)]> (w_store w))
                           [IOWrite (WSet (coll_of m, auto_id (w_next w))
                                          (prepareDataForSave false (fill data m)))]
                           (bump w))).
Proof.
  split; [|split].
  - intros m w H. unfold delete_.
    assert (Hg : negb (exists_ m) || negb (id_truthy (attributes m)) = true).
    { destruct H as [-> | ->]; [reflexivity|]. apply orb_true_r. }
    rewrite Hg. reflexivity.
  - intros m data w He Hid. unfold update, save, performUpdate.
    simpl. rewrite He. simpl in Hid. rewrite Hid. reflexivity.
  - intros m data w He Hid. unfold update, save, performCreate.
    simpl. rewrite He. simpl in Hid. rewrite Hid. simpl.
    eexists. split;
      [| unfold addDoc, newDocId, setDoc, write1; monad_simpl; reflexivity].
    reflexivity.
Qed.

(** ** Dirty tracking *)

(** C5 (as stated fails): [set(key, value)] with the value the key already
    holds leaves a freshly created instance clean. *)
Lemma set_same_value_keeps_clean :
  ~ ((forall c data cid (w : world) m w',
        create c data cid w = (Ok m, w') -> isDirty m = false) /\
     (forall (m : instance) (k : string) (v : value), isDirty (set k v m) = true) /\
     (forall (m : instance) (w : world) m' w',
        save m w = (Ok m', w') -> isDirty m' = false)).
Proof.
  intros [_ [Hset _]].
  pose proof (Hset (new_model users (Some [("name", VStr "A")])) "name" (VStr "A")) as H.
  vm_compute in H. discriminate.
Qed.

(** C5 (amended): [isDirty()] compares the JSON texts of [attributes]
    and [original].  After a successful [create] or [save] it is false; on
    a clean instance, [set(key, value)] with a defined value makes it true
    exactly when the value differs from the key's current value. *)
Theorem dirty_tracking :
  (forall (c : model_class) (data : obj) (cid : option value) (w : world) m w',
      create c data cid w = (Ok m, w') -> isDirty m = false) /\
  (forall (m : instance) (w : world) m' w',
      save m w = (Ok m', w') -> isDirty m' = false) /\
  (forall (m : instance) (k : string) (v : value),
      isDirty m = false -> json_of_value v <> None ->
      (isDirty (set k v m) = true <-> obj_get (attributes m) k <> Some v)).
Proof.
  split; [|split].
  - intros c data cid w m w'. unfold create. apply save_clean.
  - intros m w m' w'. apply save_clean.
  - intros m k v Hclean Hv.
    unfold isDirty in Hclean.
    destruct (decide (stringify (attributes m) = stringify (original m))) as [Heq|];
      [|discriminate].
    unfold isDirty, set, with_attrs; simpl. split.
    + intros Hd Hget. rewrite (obj_set_same _ _ _ Hget) in Hd.
      rewrite decide_True in Hd by exact Heq. discriminate.
    + intros Hget. destruct (json_of_value v) as [j|] eqn:Hj; [|contradiction].
      rewrite decide_False; [reflexivity|].
      rewrite <- Heq. exact (stringify_set_changes _ _ _ _ Hj Hget).
Qed.

(** ** The static [update(id, data)] *)

Lemma static_update_run (c : model_class) (id : value) (nid : string) (data : obj)
    (w : world) :
  normalizeId id = Some nid ->
  let k := (collectionName c, nid) in
  let payload := obj_set (obj_delete (obj_spread [] data) "id") "updatedAt" VServerTs in
  static_update c id data w =
    match w_store w !! k with
    | Some d => (Ok tt, after_io (<[k := obj_spread d payload]> (w_store w))
                                 [IOWrite (WUpdate k payload)] w)
    | None => (Err "not-found", after_io (w_store w) [IOWrite (WUpdate k payload)] w)
    end.
Proof.
  intros Hid. unfold static_update, updateDoc, write1. monad_simpl.
  rewrite Hid. simpl. destruct (w_store w !! _); reflexivity.
Qed.

Lemma static_update_payload (data : obj) (f : string) :
  f <> "updatedAt" -> (f = "id" \/ obj_get data f = None) ->
  obj_get (obj_set (obj_delete (obj_spread [] data) "id") "updatedAt" VServerTs) f = None.
Proof.
  intros Hf Hd. rewrite obj_get_set.
  destruct (String.eqb f "updatedAt") eqn:E; [apply String.eqb_eq in E; contradiction|].
  rewrite obj_get_delete.
  destruct (String.eqb f "id") eqn:Ei; [reflexivity|].
  destruct Hd as [-> | Hd]; [discriminate|].
  rewrite obj_get_spread_other by exact Hd. reflexivity.
Qed.

(** C8: the static [update(id, data)] writes one [updateDoc] to the path
    of the normalised id; its payload has no [id] field and carries the
    [updatedAt] marker; no other document changes, and in the updated
    document only the fields of [data] (other than [id]) and [updatedAt]
    change.  For [update(id, {id: 'other', name: 'x'})] only [name] and
    [updatedAt] change. *)
Theorem static_update_keeps_path_id (c : model_class) (id : value) (nid : string)
    (data : obj) (w : world) :
  normalizeId id = Some nid ->
  let k := (collectionName c, nid) in
  let payload := obj_set (obj_delete (obj_spread [] data) "id") "updatedAt" VServerTs in
  let w' := snd (static_update c id data w) in
  w_trace w' = (w_trace w ++ [IOWrite (WUpdate k payload)])%list /\
  obj_get payload "id" = None /\
  obj_get payload "updatedAt" = Some VServerTs /\
  (forall k', k' <> k -> w_store w' !! k' = w_store w !! k') /\
  (forall d, w_store w !! k = Some d ->
     exists d', w_store w' !! k = Some d' /\
       obj_get d' "updatedAt" = Some VServerTs /\
       forall f, f <> "updatedAt" -> (f = "id" \/ obj_get data f = None) ->
         obj_get d' f = obj_get d f) /\
  (data = [("id", VStr "other"); ("name", VStr "x")] ->
     forall d, w_store w !! k = Some d ->
     exists d', w_store w' !! k = Some d' /\
       obj_get d' "name" = Some (VStr "x") /\
       obj_get d' "updatedAt" = Some VServerTs /\
       forall f, f <> "name" -> f <> "updatedAt" -> obj_get d' f = obj_get d f).
Proof.
  intros Hid k payload w'.
  assert (Hw : static_update c id data w =
    match w_store w !! k with
    | Some d => (Ok tt, after_io (<[k := obj_spread d payload]> (w_store w))
                                 [IOWrite (WUpdate k payload)] w)
    | None => (Err "not-found", after_io (w_store w) [IOWrite (WUpdate k payload)] w)
    end) by (apply static_update_run; exact Hid).
  assert (Hpu : obj_get payload "updatedAt" = Some VServerTs).
  { unfold payload. rewrite obj_get_set. reflexivity. }
  assert (Hpf : forall f, f <> "updatedAt" -> (f = "id" \/ obj_get data f = None) ->
                  obj_get payload f = None).
  { intros f Hf Hd. apply static_update_payload; assumption. }
  assert (Hdoc : forall d, w_store w !! k = Some d ->
     w_store w' !! k = Some (obj_spread d payload)).
  { intros d Hd. unfold w'. rewrite Hw, Hd. simpl. apply lookup_insert_eq. }
  assert (Hkeep : forall d, w_store w !! k = Some d ->
     obj_get (obj_spread d payload) "updatedAt" = Some VServerTs /\
     forall f, f <> "updatedAt" -> (f = "id" \/ obj_get data f = None) ->
       obj_get (obj_spread d payload) f = obj_get d f).
  { intros d _. split.
    - apply obj_get_spread_unique; [apply nodup_update_payload | exact Hpu].
    - intros f Hf Hd. apply obj_get_spread_other. apply Hpf; assumption. }
  split; [|split; [|split; [|split; [|split]]]].
  - unfold w'. rewrite Hw. destruct (w_store w !! k); reflexivity.
  - apply Hpf; [discriminate | left; reflexivity].
  - exact Hpu.
  - intros k' Hk'. unfold w'. rewrite Hw.
    destruct (w_store w !! k); simpl; [|reflexivity].
    apply lookup_insert_ne. congruence.
  - intros d Hd. exists (obj_spread d payload). split; [exact (Hdoc d Hd)|].
    exact (Hkeep d Hd).
  - intros -> d Hd. exists (obj_spread d payload).
    destruct (Hkeep d Hd) as [Hu Hf].
    split; [exact (Hdoc d Hd)|]. split; [|split; [exact Hu|]].
    + apply obj_get_spread_unique; [apply nodup_update_payload|].
      unfold payload. rewrite obj_get_set. reflexivity.
    + intros f Hn Hu'. apply Hf; [exact Hu'|].
      destruct (String.eqb f "id") eqn:Ei; [left; apply String.eqb_eq; exact Ei|].
      right. simpl. rewrite Ei.
      destruct (String.eqb f "name") eqn:En; [apply String.eqb_eq in En; contradiction|].
      reflexivity.
Qed.

(** ** [deleteAll()] *)

Lemma after_io_nil (w : world) : after_io (w_store w) [] w = w.
Proof. destruct w; unfold after_io; simpl. rewrite app_nil_r. reflexivity. Qed.

Lemma after_io_after_io (s1 s2 : gmap key obj) (e1 e2 : list io_event) (w : world) :
  after_io s2 e2 (after_io s1 e1 w) = after_io s2 (e1 ++ e2) w.
Proof. unfold after_io; simpl. rewrite app_assoc. reflexivity. Qed.

Lemma mapM_doc_key (coll : string) (l : list obj) (w : world) :
  Forall has_str_id l ->
  mapM (doc_key coll) l w = (Ok (map (key_of coll) l), w).
Proof.
  induction l as [|d l IH]; intros Hl; [reflexivity|].
  inversion Hl as [|? ? [id Hid] Hl']; subst.
  assert (Hk : doc_key coll d = ret (coll, id)) by (unfold doc_key; rewrite Hid; reflexivity).
  cbn [mapM]. unfold bind at 1. rewrite Hk. unfold ret at 1.
  unfold bind. rewrite IH by exact Hl'. unfold ret. simpl. assert (Hk2 : key_of coll d = (coll, id)) by (unfold key_of; rewrite Hid; reflexivity). rewrite Hk2. reflexivity.
Qed.

Lemma apply_writes_deletes (ks : list key) (s : gmap key obj) :
  apply_writes s (map WDelete ks) = Some (delete_keys ks s).
Proof.
  revert s. induction ks as [|k ks IH]; intros s; [reflexivity|].
  simpl. apply IH.
Qed.

Lemma commit_deletes (ks : list key) (w : world) :
  commit (map WDelete ks) w =
    (Ok tt, after_io (delete_keys ks (w_store w)) [IOCommit (map WDelete ks)] w).
Proof. unfold commit. rewrite apply_writes_deletes. reflexivity. Qed.

Lemma delete_keys_app (a b : list key) (s : gmap key obj) :
  delete_keys (a ++ b) s = delete_keys b (delete_keys a s).
Proof. unfold delete_keys. apply fold_left_app. Qed.

Lemma ceil_500_step (x : nat) :
  0 < x -> (x + 499) / 500 = S ((x - 500 + 499) / 500).
Proof.
  intros Hx. destruct (Nat.le_gt_cases x 500) as [Hle|Hgt].
  - replace (x - 500 + 499) with 499 by lia.
    rewrite <- (Nat.div_unique (x + 499) 500 1 (x - 1)) by lia.
    rewrite (Nat.div_small 499 500) by lia. reflexivity.
  - replace (x + 499) with ((x - 500 + 499) + 1 * 500) by lia.
    rewrite Nat.div_add by lia. lia.
Qed.

(** The loop of [deleteAll] from index [i]: one committed batch of at
    most [BATCH_SIZE] deletes per round over [docs[i..]]. *)
Lemma deleteAll_loop_spec (coll : string) (docs : list obj) :
  Forall has_str_id docs ->
  forall (f i cnt : nat) (w : world), length docs <= i + BATCH_SIZE * f ->
  exists rounds : list (list write),
    deleteAll_loop f coll docs i cnt w =
      (Ok (cnt + (length docs - i)),
       after_io (delete_keys (map (key_of coll) (skipn i docs)) (w_store w))
                (map IOCommit rounds) w) /\
    length rounds = (length docs - i + 499) / 500 /\
    Forall (fun r => 0 < length r /\ length r <= BATCH_SIZE) rounds /\
    concat rounds = map (fun d => WDelete (key_of coll d)) (skipn i docs).
Proof.
  intros Hd f. induction f as [|f IH]; intros i cnt w Hf.
  - exists []. rewrite skipn_all2 by lia. simpl.
    replace (length docs - i) with 0 by lia. rewrite Nat.add_0_r, after_io_nil.
    split; [reflexivity|]. split; [reflexivity|]. split; constructor.
  - simpl deleteAll_loop. destruct (Nat.ltb i (length docs)) eqn:Hlt.
    + apply Nat.ltb_lt in Hlt.
      set (batchDocs := firstn BATCH_SIZE (skipn i docs)).
      assert (Hb : Forall has_str_id batchDocs).
      { apply Forall_take, Forall_drop, Hd. }
      destruct (IH (i + BATCH_SIZE) (cnt + length batchDocs)
                   (after_io (delete_keys (map (key_of coll) batchDocs) (w_store w))
                             [IOCommit (map WDelete (map (key_of coll) batchDocs))] w))
        as [rounds [Hrun [Hlen [Hall Hcat]]]].
      { unfold BATCH_SIZE in *. lia. }
      exists (map WDelete (map (key_of coll) batchDocs) :: rounds).
      assert (Hsplit : skipn i docs = (batchDocs ++ skipn (i + BATCH_SIZE) docs)%list).
      { unfold batchDocs. rewrite <- (firstn_skipn BATCH_SIZE (skipn i docs)) at 1.
        f_equal. rewrite skipn_skipn. f_equal. lia. }
      assert (Hblen : length batchDocs = Nat.min BATCH_SIZE (length docs - i)).
      { unfold batchDocs. rewrite length_firstn, length_skipn. reflexivity. }
      split; [|split; [|split]].
      * unfold bind. rewrite mapM_doc_key by exact Hb.
        rewrite commit_deletes. rewrite Hrun. simpl.
        rewrite after_io_after_io. f_equal.
        -- f_equal. unfold BATCH_SIZE in *. lia.
        -- rewrite Hsplit, map_app, delete_keys_app. reflexivity.
      * cbn [length]. rewrite Hlen. rewrite (ceil_500_step (length docs - i)) by lia.
        f_equal. f_equal. unfold BATCH_SIZE. lia.
      * constructor; [|exact Hall].
        rewrite !length_map, Hblen. unfold BATCH_SIZE. lia.
      * simpl. rewrite Hcat, Hsplit, map_app, map_map. reflexivity.
    + apply Nat.ltb_ge in Hlt. exists [].
      rewrite skipn_all2 by lia. simpl.
      replace (length docs - i) with 0 by lia. rewrite Nat.add_0_r, after_io_nil.
      split; [reflexivity|]. split; [reflexivity|]. split; constructor.
Qed.

Lemma to_plain_id (d : snap) :
  obj_get (snap_data d) "id" = None ->
  obj_get (to_plain d) "id" = Some (VStr (snap_id d)).
Proof. intros H. unfold to_plain. rewrite obj_get_spread_other by exact H. reflexivity. Qed.

Lemma key_of_to_plain (coll : string) (d : snap) :
  obj_get (snap_data d) "id" = None ->
  key_of coll (to_plain d) = (coll, snap_id d).
Proof. intros H. unfold key_of. rewrite to_plain_id by exact H. reflexivity. Qed.

Section Service.

Variable where_holds : string -> string -> value -> obj -> bool.
Variable order_docs : list (string * string) -> list snap -> list snap.

Lemma qb_get_run (b : QueryBuilder) (w : world) :
  qb_get where_holds order_docs b w =
    (Ok (map to_plain (run_query where_holds order_docs (w_store w) (qb_coll b) (constraints b))),
     after_io (w_store w) [IORead (qb_coll b)] w).
Proof. reflexivity. Qed.

(** [deleteAll()] run to completion on documents stored without an [id]
    field of their own: one read, then the committed batches. *)
Lemma deleteAll_run (b : QueryBuilder) (w : world) :
  let docs := run_query where_holds order_docs (w_store w) (qb_coll b) (constraints b) in
  Forall (fun d => obj_get (snap_data d) "id" = None) docs ->
  exists rounds : list (list write),
    qb_deleteAll where_holds order_docs b w =
      (Ok (length docs),
       after_io (delete_keys (map (fun d => (qb_coll b, snap_id d)) docs) (w_store w))
                (IORead (qb_coll b) :: map IOCommit rounds) w) /\
    length rounds = (length docs + 499) / 500 /\
    Forall (fun r => 0 < length r /\ length r <= BATCH_SIZE) rounds /\
    concat rounds = map (fun d => WDelete (qb_coll b, snap_id d)) docs.
Proof.
  intros docs Hd.
  assert (Hkeys : map (key_of (qb_coll b)) (map to_plain docs) =
                  map (fun d => (qb_coll b, snap_id d)) docs).
  { rewrite map_map. apply map_ext_Forall.
    eapply Forall_impl; [exact Hd|]. intros d Hn. apply key_of_to_plain, Hn. }
  assert (Hids : Forall has_str_id (map to_plain docs)).
  { apply Forall_map. eapply Forall_impl; [exact Hd|].
    intros d Hn. exists (snap_id d). apply to_plain_id, Hn. }
  unfold qb_deleteAll, bind at 1. rewrite qb_get_run. fold docs.
  rewrite length_map.
  destruct (Nat.eqb (length docs) 0) eqn:E.
  - apply Nat.eqb_eq in E. exists [].
    destruct docs as [|d0 ds]; [|discriminate].
    split; [reflexivity|]. split; [|split; constructor].
    simpl. reflexivity.
  - apply Nat.eqb_neq in E.
    destruct (deleteAll_loop_spec (qb_coll b) (map to_plain docs) Hids (length docs) 0 0
                (after_io (w_store w) [IORead (qb_coll b)] w))
      as [rounds [Hrun [Hlen [Hall Hcat]]]].
    { rewrite length_map. unfold BATCH_SIZE. lia. }
    exists rounds. rewrite length_map, Nat.sub_0_r in *. simpl skipn in *.
    rewrite drop_0 in Hrun, Hcat. rewrite Hrun, Hkeys, after_io_after_io.
    split; [reflexivity|]. split; [exact Hlen|]. split; [exact Hall|].
    rewrite Hcat. transitivity (map WDelete (map (key_of (qb_coll b)) (map to_plain docs)));
      [symmetry; apply map_map|]. rewrite Hkeys, map_map. reflexivity.
Qed.

(** C7: on a query matching [N] documents (stored, as the ORM writes
    them, without an [id] field of their own), [deleteAll()] reads once,
    then commits exactly [ceil(N/500)] batches one after the other, each
    of between 1 and 500 deletes, which together delete each matched
    document once, in query order; it returns [N].  So [N = 1200] gives 3
    batches and [N = 0] none. *)
Theorem deleteAll_batches (b : QueryBuilder) (w : world) :
  let docs := run_query where_holds order_docs (w_store w) (qb_coll b) (constraints b) in
  Forall (fun d => obj_get (snap_data d) "id" = None) docs ->
  exists rounds : list (list write),
    qb_deleteAll where_holds order_docs b w =
      (Ok (length docs),
       after_io (delete_keys (map (fun d => (qb_coll b, snap_id d)) docs) (w_store w))
                (IORead (qb_coll b) :: map IOCommit rounds) w) /\
    length rounds = (length docs + BATCH_SIZE - 1) / BATCH_SIZE /\
    Forall (fun r => 0 < length r /\ length r <= BATCH_SIZE) rounds /\
    concat rounds = map (fun d => WDelete (qb_coll b, snap_id d)) docs /\
    (length docs = 1200 -> length rounds = 3) /\
    (length docs = 0 -> rounds = []).
Proof.
  intros docs Hd.
  destruct (deleteAll_run b w Hd) as [rounds [Hrun [Hlen [Hall Hcat]]]].
  assert (Hl : length rounds = (length docs + 499) / 500) by exact Hlen.
  exists rounds. unfold BATCH_SIZE in *.
  replace (length docs + 500 - 1) with (length docs + 499) by lia.
  split; [exact Hrun|]. split; [exact Hlen|]. split; [exact Hall|].
  split; [exact Hcat|]. split.
  - intros HN. rewrite Hl, HN.
    rewrite <- (Nat.div_unique (1200 + 499) 500 3 199) by lia. reflexivity.
  - intros HN. apply length_zero_iff_nil. rewrite Hl, HN.
    apply Nat.div_small. lia.
Qed.

Lemma qb_destroy_run (b : QueryBuilder) (id : string) (w : world) :
  qb_destroy b id w =
    (Ok tt, after_io (delete (qb_coll b, id) (w_store w))
                     [IOWrite (WDelete (qb_coll b, id))] w).
Proof. reflexivity. Qed.

Lemma performDelete_run (m m' : instance) (w w' : world) :
  performDelete m w = (Ok m', w') ->
  exists nid, w' = after_io (delete (coll_of m, nid) (w_store w))
                            [IOWrite (WDelete (coll_of m, nid))] w /\
              exists_ m' = false.
Proof.
  unfold performDelete, normalized_id, deleteDoc, write1. monad_simpl.
  intros H. repeat case_match; simplify_eq.
  eexists; split; reflexivity.
Qed.

Lemma delete_soft_run (m m' : instance) (w w' : world) :
  exists_ m = true -> id_truthy (attributes m) = true ->
  performSoftDelete m w = (Ok m', w') ->
  let m1 := set "deletedAt" (VDate (w_clock w)) m in
  exists nid d,
    w_store w !! (coll_of m, nid) = Some d /\
    w' = after_io (<[(coll_of m, nid) := obj_spread d (prepareDataForSave true m1)]> (w_store w))
                  [IOWrite (WUpdate (coll_of m, nid) (prepareDataForSave true m1))] w /\
    attributes m' = attributes m1.
Proof.
  intros Hex Hid H m1.
  assert (Hdef : id_undefined (attributes m1) = false).
  { unfold m1, set, id_undefined, id_truthy in *. simpl. rewrite obj_get_set. simpl.
    destruct (obj_get (attributes m) "id") as [[]|]; simpl in *; congruence. }
  revert H. unfold performSoftDelete, save, performUpdate, normalized_id, updateDoc, write1.
  monad_simpl. fold m1. unfold m1 at 1. simpl. rewrite Hex. fold m1. rewrite Hdef.
  simpl. intros H. repeat case_match; simplify_eq.
  do 2 eexists. split; [eassumption|]. split; reflexivity.
Qed.

(** C10: [QueryBuilder.destroy(id)] and [QueryBuilder.deleteAll()]
    always delete documents outright, whatever the model's [softDeletes]
    setting (no statement below depends on it); the instance [delete()]
    removes the document when [softDeletes] is off, and when it is on
    stamps [deletedAt] with the current time and saves through
    [updateDoc], so that the document stays in the store. *)
Theorem hard_and_soft_deletes :
  (forall (b : QueryBuilder) (id : string) (w : world),
     let w' := snd (qb_destroy b id w) in
     w_trace w' = (w_trace w ++ [IOWrite (WDelete (qb_coll b, id))])%list /\
     w_store w' = delete (qb_coll b, id) (w_store w)) /\
  (forall (b : QueryBuilder) (w : world),
     let docs := run_query where_holds order_docs (w_store w) (qb_coll b) (constraints b) in
     Forall (fun d => obj_get (snap_data d) "id" = None) docs ->
     exists rounds : list (list write),
       w_trace (snd (qb_deleteAll where_holds order_docs b w)) =
         (w_trace w ++ IORead (qb_coll b) :: map IOCommit rounds)%list /\
       Forall (Forall (fun wr => exists k, wr = WDelete k)) rounds /\
       w_store (snd (qb_deleteAll where_holds order_docs b w)) =
         delete_keys (map (fun d => (qb_coll b, snap_id d)) docs) (w_store w)) /\
  (forall (m m' : instance) (w w' : world),
     softDeletes m = false -> delete_ m w = (Ok m', w') ->
     exists nid,
       w_trace w' = (w_trace w ++ [IOWrite (WDelete (coll_of m, nid))])%list /\
       w_store w' = delete (coll_of m, nid) (w_store w) /\
       exists_ m' = false) /\
  (forall (m m' : instance) (w w' : world),
     softDeletes m = true -> delete_ m w = (Ok m', w') ->
     exists nid payload d,
       w_trace w' = (w_trace w ++ [IOWrite (WUpdate (coll_of m, nid) payload)])%list /\
       obj_get payload "deletedAt" = Some (VDate (w_clock w)) /\
       w_store w !! (coll_of m, nid) = Some d /\
       w_store w' = <[(coll_of m, nid) := obj_spread d payload]> (w_store w) /\
       obj_get (attributes m') "deletedAt" = Some (VDate (w_clock w))).
Proof.
  split; [|split; [|split]].
  - intros b id w w'. unfold w'. rewrite qb_destroy_run. split; reflexivity.
  - intros b w docs Hd.
    destruct (deleteAll_run b w Hd) as [rounds [Hrun [_ [_ Hcat]]]].
    exists rounds. rewrite Hrun. split; [reflexivity|]. split; [|reflexivity].
    apply List.Forall_forall. intros r Hr. apply List.Forall_forall. intros wr Hwr.
    assert (Hin : In wr (concat rounds)) by (apply in_concat; exists r; split; assumption).
    rewrite Hcat in Hin. apply in_map_iff in Hin as [d [<- _]]. eauto.
  - intros m m' w w' Hs H. unfold delete_ in H. rewrite Hs in H.
    destruct (negb (exists_ m) || negb (id_truthy (attributes m))); [discriminate|].
    destruct (performDelete_run m m' w w' H) as [nid [-> Hm']].
    exists nid. split; [reflexivity|]. split; [reflexivity|exact Hm'].
  - intros m m' w w' Hs H. unfold delete_ in H. rewrite Hs in H.
    destruct (exists_ m) eqn:Hex; [|discriminate].
    destruct (id_truthy (attributes m)) eqn:Hid; [|discriminate].
    destruct (delete_soft_run m m' w w' Hex Hid H) as [nid [d [Hd [-> Hm']]]].
    set (m1 := set "deletedAt" (VDate (w_clock w)) m) in *.
    assert (Hm1 : obj_get (attributes m1) "deletedAt" = Some (VDate (w_clock w))).
    { unfold m1, set. simpl. rewrite obj_get_set. reflexivity. }
    exists nid, (prepareDataForSave true m1), d.
    split; [reflexivity|]. split; [|split; [exact Hd|split; [reflexivity|]]].
    + unfold prepareDataForSave.
      destruct (timestamps m1); cbv beta iota; rewrite ?obj_get_set, obj_get_delete;
        exact Hm1.
    + rewrite Hm'. exact Hm1.
Qed.

Lemma last_limit_app (l1 l2 : list constraint) :
  last_limit (l1 ++ l2) =
    match last_limit l2 with Some m => Some m | None => last_limit l1 end.
Proof.
  induction l1 as [|c l1 IH]; simpl.
  - destruct (last_limit l2); reflexivity.
  - rewrite IH. destruct c; try reflexivity.
    destruct (last_limit l2); [reflexivity|]. reflexivity.
Qed.

Lemma last_limit_none (cs : list constraint) :
  has_limit cs = false -> last_limit cs = None.
Proof.
  induction cs as [|c cs IH]; simpl; [reflexivity|].
  destruct c; simpl; try exact IH; discriminate.
Qed.

Lemma run_query_limit (s : gmap key obj) (coll : string) (cs : list constraint) (n : nat) :
  last_limit cs = Some n -> length (run_query where_holds order_docs s coll cs) <= n.
Proof.
  intros H. unfold run_query. rewrite H. rewrite length_firstn. lia.
Qed.

(** C9: [first()] pushes [limit(1)] onto the builder it is called on and
    returns that same builder: its constraint list grows by one entry,
    and every later [get()] on it, also after more [where], [orderBy] or
    cursor constraints (anything but another [limit]), returns at most
    one document, whatever the constraints it had before. *)
Theorem first_limits_builder (b : QueryBuilder) (w : world) :
  let b' := qb_limit 1 b in
  constraints b' = (constraints b ++ [CLimit 1])%list /\
  length (constraints b') = S (length (constraints b)) /\
  qb_coll b' = qb_coll b /\
  (exists (o : option obj) (w1 : world),
     qb_first where_holds order_docs b w = (Ok (o, b'), w1)) /\
  (forall (extra : list constraint) (w2 : world),
     has_limit extra = false ->
     exists l : list obj,
       qb_get where_holds order_docs (with_constraints (constraints b' ++ extra) b') w2 =
         (Ok l, after_io (w_store w2) [IORead (qb_coll b)] w2) /\
       length l <= 1).
Proof.
  intros b'. split; [reflexivity|]. split.
  { unfold b', qb_limit, with_constraints. simpl. rewrite length_app. simpl. lia. }
  split; [reflexivity|]. split.
  { do 2 eexists. reflexivity. }
  intros extra w2 Hx. eexists. split; [reflexivity|].
  rewrite length_map. apply run_query_limit. simpl.
  unfold b', qb_limit, with_constraints. simpl.
  rewrite last_limit_app, last_limit_none by exact Hx.
  rewrite last_limit_app. reflexivity.
Qed.

(** ** [Model.transaction] and [Model.batch] *)

Lemma mapM_doc_key_world (coll : string) (l : list obj) (w : world) :
  snd (mapM (doc_key coll) l w) = w.
Proof.
  revert w. induction l as [|d l IH]; intros w; [reflexivity|].
  cbn [mapM]. unfold bind at 1.
  assert (Hk : snd (doc_key coll d w) = w)
    by (unfold doc_key; destruct (obj_get d "id") as [[]|]; reflexivity).
  destruct (doc_key coll d w) as [[k|e] w1]; simpl in Hk; subst w1; [|reflexivity].
  unfold bind. specialize (IH w).
  destruct (mapM (doc_key coll) l w) as [[ks|e] w2]; simpl in *; subst; reflexivity.
Qed.

(** Replaying an operation does no I/O: only the id counter moves. *)
Lemma replay_op_quiet (op : tx_op) (h : heap) (w : world) :
  w_store (snd (replay_op op h w)) = w_store w /\
  w_trace (snd (replay_op op h w)) = w_trace w.
Proof.
  destruct op; unfold replay_op, deref, normalized_id, newDocId, of_option;
    monad_simpl; repeat case_match; simplify_eq; simpl; auto.
  all: match goal with
       | E : mapM _ _ _ = (_, ?w') |- _ =>
           pose proof (f_equal snd E) as Hw; rewrite mapM_doc_key_world in Hw;
           simpl in Hw; subst; auto
       end.
Qed.

Lemma replay_quiet (ops : list tx_op) (h : heap) (w : world) :
  w_store (snd (replay ops h w)) = w_store w /\
  w_trace (snd (replay ops h w)) = w_trace w.
Proof.
  revert h w. induction ops as [|op ops IH]; intros h w; [auto|].
  cbn [replay]. unfold bind.
  pose proof (replay_op_quiet op h w) as [Hs Ht].
  destruct (replay_op op h w) as [[hw|e] w1] eqn:E; simpl in *; [|auto].
  pose proof (IH hw.1 w1) as [Hs' Ht'].
  destruct (replay ops hw.1 w1) as [[hw'|e] w2]; simpl in *; unfold ret;
    simpl; split; congruence.
Qed.

Lemma ctx_write_quiet (ib : bool) (a : action) (h : heap) (q : list tx_op) (w : world) :
  ctx_write_action a = true -> snd (run_action where_holds order_docs ib a h q w) = w.
Proof.
  destruct a; simpl; try discriminate; intros _;
    unfold deref, of_option; monad_simpl; repeat case_match; simplify_eq; reflexivity.
Qed.

Lemma deleteSubcollection_one_read (r : nat) (name : string) (h : heap) (q : list tx_op)
    (w : world) :
  let w' := snd (run_action where_holds order_docs false (ADeleteSubcollection r name) h q w) in
  w_store w' = w_store w /\
  exists evs : list io_event,
    w_trace w' = (w_trace w ++ evs)%list /\ length evs <= 1 /\
    Forall (fun e => exists path, e = IORead path) evs.
Proof.
  simpl. unfold deref, of_option, ctx_deleteSubcollection, normalized_id, of_option,
    qb_get, getDocs.
  monad_simpl. repeat case_match; simplify_eq; simpl.
  all: split; [reflexivity|].
  all: first [ exists []; split; [symmetry; apply app_nil_r|]; split; [simpl; lia|constructor]
             | eexists [_]; split; [reflexivity|]; split; [simpl; lia|];
               constructor; [eexists; reflexivity|constructor] ].
Qed.

Lemma run_action_store (ib : bool) (a : action) (h : heap) (q : list tx_op) (w : world) :
  match a with AStaticUpdate _ _ _ => False | _ => True end ->
  w_store (snd (run_action where_holds order_docs ib a h q w)) = w_store w.
Proof.
  intros Ha. destruct (ctx_write_action a) eqn:Hc.
  { rewrite ctx_write_quiet by exact Hc. reflexivity. }
  destruct a; try discriminate; try contradiction.
  - simpl. unfold load, find, find_in, getDoc, of_option.
    monad_simpl. repeat case_match; simplify_eq; reflexivity.
  - simpl. unfold deref, of_option. monad_simpl. repeat case_match; simplify_eq; reflexivity.
  - destruct ib.
    + reflexivity.
    + apply deleteSubcollection_one_read.
  - reflexivity.
Qed.

Lemma run_callback_store (ib : bool) (cb : list action) (h : heap) (q : list tx_op)
    (w : world) :
  direct_writes_free cb = true ->
  w_store (snd (run_callback where_holds order_docs ib cb h q w)) = w_store w.
Proof.
  revert h q w. induction cb as [|a cb IH]; intros h q w Hd; [reflexivity|].
  simpl in Hd. apply andb_prop in Hd as [Ha Hd].
  cbn [run_callback]. unfold bind.
  assert (Hs : w_store (snd (run_action where_holds order_docs ib a h q w)) = w_store w).
  { apply run_action_store. destruct a; try exact I; discriminate. }
  destruct (run_action where_holds order_docs ib a h q w) as [[hq|e] w1]; simpl in *.
  - rewrite IH by exact Hd. exact Hs.
  - exact Hs.
Qed.

Lemma commit_err_store (ws : list write) (e : string) (w w' : world) :
  commit ws w = (Err e, w') -> w_store w' = w_store w.
Proof. unfold commit. case_match; intros Hc; simplify_eq; reflexivity. Qed.

(** After the callback, replay and commit change the store only through
    a commit that succeeds. *)
Lemma replay_commit_err_store (ops : list tx_op) (h : heap) (e : string) (w w' : world) :
  (hw <- replay ops h ;; commit hw.2) w = (Err e, w') -> w_store w' = w_store w.
Proof.
  unfold bind. pose proof (replay_quiet ops h w) as [Hs _].
  destruct (replay ops h w) as [[hw|e'] w2]; simpl in *; intros H.
  - rewrite (commit_err_store _ _ _ _ H). exact Hs.
  - simplify_eq. exact Hs.
Qed.

(** C1: when the callback of [transaction()] throws, at any point and
    whatever it queued before, [transaction()] rejects with the same
    error before [runTransaction] starts, so no queued operation reaches
    the store; more generally, whenever [transaction()] rejects, the
    store is the one the callback's own code left, which is the store
    before the call when the callback writes nothing itself. *)
Theorem transaction_failure_keeps_store (cb : list action) (w : world) :
  (forall (e : string) (w1 : world),
     run_callback where_holds order_docs false cb [] [] w = (Err e, w1) ->
     transaction where_holds order_docs cb w = (Err e, w1)) /\
  (forall (e : string) (w' : world),
     transaction where_holds order_docs cb w = (Err e, w') ->
     w_store w' = w_store (snd (run_callback where_holds order_docs false cb [] [] w))) /\
  (direct_writes_free cb = true ->
   forall (e : string) (w' : world),
     transaction where_holds order_docs cb w = (Err e, w') -> w_store w' = w_store w).
Proof.
  assert (Herr : forall (e : string) (w' : world),
     transaction where_holds order_docs cb w = (Err e, w') ->
     w_store w' = w_store (snd (run_callback where_holds order_docs false cb [] [] w))).
  { intros e w' H. unfold transaction, bind at 1 in H.
    destruct (run_callback where_holds order_docs false cb [] [] w) as [[hq|e1] w1];
      simpl in *.
    - exact (replay_commit_err_store _ _ _ _ _ H).
    - simplify_eq. reflexivity. }
  split; [|split; [exact Herr|]].
  - intros e w1 H. unfold transaction, bind at 1. rewrite H. reflexivity.
  - intros Hd e w' H. rewrite (Herr e w' H). apply run_callback_store, Hd.
Qed.

Lemma commit_ok (ws : list write) (w w' : world) :
  commit ws w = (Ok tt, w') ->
  w_trace w' = (w_trace w ++ [IOCommit ws])%list /\ apply_writes (w_store w) ws = Some (w_store w').
Proof. unfold commit. case_match; intros Hc; simplify_eq; split; reflexivity. Qed.

Lemma run_then_commit (ib : bool) (cb : list action) (w w' : world) :
  (hq <- run_callback where_holds order_docs ib cb [] [] ;;
   hw <- replay hq.2 hq.1 ;;
   commit hw.2) w = (Ok tt, w') ->
  exists (h : heap) (q : list tx_op) (w1 : world) (h' : heap) (ws : list write) (w2 : world),
    run_callback where_holds order_docs ib cb [] [] w = (Ok (h, q), w1) /\
    replay q h w1 = (Ok (h', ws), w2) /\
    w_trace w' = (w_trace w1 ++ [IOCommit ws])%list /\
    apply_writes (w_store w1) ws = Some (w_store w').
Proof.
  unfold bind at 1.
  destruct (run_callback where_holds order_docs ib cb [] [] w) as [[[h q]|e] w1]; simpl;
    [|discriminate].
  unfold bind. pose proof (replay_quiet q h w1) as [Hs Ht].
  destruct (replay q h w1) as [[[h' ws]|e] w2] eqn:E; simpl in *; [|discriminate].
  intros Hc. destruct (commit_ok ws w2 w' Hc) as [Ht' Hs'].
  exists h, q, w1, h', ws, w2. split; [reflexivity|]. split; [exact E|].
  rewrite Ht', Ht, <- Hs. split; [reflexivity|exact Hs'].
Qed.

(** C2, amended: [ctx.create], [ctx.update] and [ctx.delete] (by instance
    or by id) only queue an operation and do no I/O; but
    [ctx.deleteSubcollection] reads the subcollection when it is called
    (at most one read, no write).  No write of a queued operation happens
    before the callback returns: a [transaction()] or [batch()] that
    resolves replays the queue, in queue order and with no I/O, and then
    makes a single commit of all the writes. *)
Theorem queued_operations_io :
  (forall (ib : bool) (a : action) (h : heap) (q : list tx_op) (w : world),
     ctx_write_action a = true -> snd (run_action where_holds order_docs ib a h q w) = w) /\
  (forall (r : nat) (name : string) (h : heap) (q : list tx_op) (w : world),
     let w' := snd (run_action where_holds order_docs false (ADeleteSubcollection r name) h q w) in
     w_store w' = w_store w /\
     exists evs : list io_event,
       w_trace w' = (w_trace w ++ evs)%list /\ length evs <= 1 /\
       Forall (fun e => exists path, e = IORead path) evs) /\
  (forall (cb : list action) (w w' : world),
     transaction where_holds order_docs cb w = (Ok tt, w') \/
     batch where_holds order_docs cb w = (Ok tt, w') ->
     exists (ib : bool) (h : heap) (q : list tx_op) (w1 : world) (h' : heap)
            (ws : list write) (w2 : world),
       run_callback where_holds order_docs ib cb [] [] w = (Ok (h, q), w1) /\
       replay q h w1 = (Ok (h', ws), w2) /\
       w_store w2 = w_store w1 /\ w_trace w2 = w_trace w1 /\
       w_trace w' = (w_trace w1 ++ [IOCommit ws])%list /\
       apply_writes (w_store w1) ws = Some (w_store w')).
Proof.
  split; [|split].
  - intros ib a h q w Ha. apply ctx_write_quiet, Ha.
  - intros r name h q w. apply deleteSubcollection_one_read.
  - intros cb w w' [H|H].
    + destruct (run_then_commit false cb w w' H)
        as (h & q & w1 & h' & ws & w2 & Hr & Hp & Ht & Hs).
      pose proof (replay_quiet q h w1) as [Hs2 Ht2]. rewrite Hp in Hs2, Ht2.
      exists false, h, q, w1, h', ws, w2. auto 7.
    + destruct (run_then_commit true cb w w' H)
        as (h & q & w1 & h' & ws & w2 & Hr & Hp & Ht & Hs).
      pose proof (replay_quiet q h w1) as [Hs2 Ht2]. rewrite Hp in Hs2, Ht2.
      exists true, h, q, w1, h', ws, w2. auto 7.
Qed.

End Service.

(** ** Timestamps and the global configuration *)

(** C4: the [timestamps] flag of the configuration given to [initialize]
    is never read.  With [timestamps: false] in the configuration, the
    static [create] still stores [createdAt] and [updatedAt] and the
    static [update] still stamps [updatedAt]; with [timestamps: true],
    a model whose own [timestamps] field is [false] stores none. *)
Theorem timestamps_ignore_config :
  let off := {| cfg_timestamps := false; cfg_softDeletes := false |} in
  let on := {| cfg_timestamps := true; cfg_softDeletes := false |} in
  let posts := {| collectionName := "posts"; cls_timestamps := false;
                  cls_softDeletes := false |} in
  w_store (snd (create users [("name", VStr "A")] None (initialize off empty_world)))
    !! ("users", "auto0")
    = Some [("name", VStr "A"); ("createdAt", VServerTs); ("updatedAt", VServerTs)] /\
  w_store (snd (static_update users (VStr "u1") [("name", VStr "B")]
                 (set_store {[("users", "u1") := [("name", VStr "A")]]}
                            (initialize off empty_world))))
    !! ("users", "u1")
    = Some [("name", VStr "B"); ("updatedAt", VServerTs)] /\
  w_store (snd (create posts [("title", VStr "T")] None (initialize on empty_world)))
    !! ("posts", "auto0")
    = Some [("title", VStr "T")].
Proof. repeat split; vm_compute; reflexivity. Qed.

(** ** [simplePaginate()] *)

Lemma simplePaginate_zero_step (w : world) :
  w_store w = one_user ->
  simplePaginate all_where keep_order (query users) 0 JRUndef w =
    (Ok {| sp_data := []; nextCursor := JRUndef; hasMorePages := true |},
     log (IORead "users") w).
Proof.
  intros Hs. unfold simplePaginate, getDocs, bind, modify, gets, ret. simpl.
  rewrite Hs. reflexivity.
Qed.

Lemma drain_zero_never_ends (fuel : nat) (w : world) :
  w_store w = one_user ->
  fst (drain_simplePaginate all_where keep_order fuel (query users) 0 JRUndef w) = Ok None.
Proof.
  revert w. induction fuel as [|f IH]; intros w Hs; [reflexivity|].
  simpl drain_simplePaginate. unfold bind at 1. rewrite simplePaginate_zero_step by exact Hs.
  simpl. unfold bind.
  specialize (IH (log (IORead "users") w) Hs).
  destruct (drain_simplePaginate _ _ f _ _ _ _) as [[r|e] w'] eqn:E;
    simpl in IH; [|discriminate]. inversion IH; subst. reflexivity.
Qed.

(** C6, the claim as stated, fails at [perPage = 0]: [limit(1)] fetches
    the one stored row, so [hasMorePages] is true, the trimmed page is
    empty and [nextCursor] is [undefined]; the next call starts again
    from the beginning, and the chain never reaches [hasMorePages ==
    false], whatever the number of calls. *)
Lemma simplePaginate_zero_never_ends :
  ~ (forall (b : QueryBuilder) (P : nat) (w : world),
       exists (fuel : nat) (w' : world),
         drain_simplePaginate all_where keep_order fuel b P JRUndef w =
           (Ok (Some (map to_plain
                  (run_query all_where keep_order (w_store w) (qb_coll b) (constraints b)))), w')).
Proof.
  intros H.
  set (w := {| w_store := one_user; w_next := 0; w_clock := 0; w_trace := [];
               w_config := defaultConfig |}).
  destruct (H (query users) 0 w) as [fuel [w' Hd]].
  pose proof (drain_zero_never_ends fuel w eq_refl) as Hz.
  rewrite Hd in Hz. discriminate.
Qed.

Lemma last_start_app (l1 l2 : list constraint) :
  last_start (l1 ++ l2) =
    match last_start l2 with Some m => Some m | None => last_start l1 end.
Proof.
  induction l1 as [|c l1 IH]; simpl.
  - destruct (last_start l2); reflexivity.
  - rewrite IH. destruct c; try reflexivity. destruct (last_start l2); reflexivity.
Qed.

Lemma last_end_app (l1 l2 : list constraint) :
  last_end (l1 ++ l2) =
    match last_end l2 with Some m => Some m | None => last_end l1 end.
Proof.
  induction l1 as [|c l1 IH]; simpl.
  - destruct (last_end l2); reflexivity.
  - rewrite IH. destruct c; try reflexivity. destruct (last_end l2); reflexivity.
Qed.

Lemma plain_no_cursors (cs : list constraint) :
  plain_constraints cs = true ->
  last_start cs = None /\ last_end cs = None /\ last_limit cs = None.
Proof.
  induction cs as [|c cs IH]; simpl; [auto|].
  destruct c; simpl; try discriminate; exact IH.
Qed.

Lemma after_split (d : snap) (xs ys : list snap) :
  ~ In (snap_id d) (map snap_id xs) -> after d (xs ++ d :: ys) = ys.
Proof.
  induction xs as [|x xs IH]; simpl; intros Hn.
  - rewrite String.eqb_refl. reflexivity.
  - destruct (String.eqb (snap_id x) (snap_id d)) eqn:E.
    + apply String.eqb_eq in E. exfalso. apply Hn. left. exact E.
    + apply IH. intros Hi. apply Hn. right. exact Hi.
Qed.

Lemma nodup_ids_filter (p : snap -> bool) (l : list snap) :
  List.NoDup (map snap_id l) -> List.NoDup (map snap_id (List.filter p l)).
Proof.
  induction l as [|x l IH]; simpl; intros H; [constructor|].
  inversion H as [|? ? Hx Hl]; subst.
  destruct (p x); simpl; [|exact (IH Hl)].
  constructor; [|exact (IH Hl)].
  intros Hi. apply Hx. apply in_map_iff in Hi as [y [Hy Hin]].
  apply filter_In in Hin as [Hin _]. rewrite <- Hy. apply in_map, Hin.
Qed.

Lemma nodup_ids_coll_docs (s : gmap key obj) (coll : string) :
  List.NoDup (map snap_id (coll_docs s coll)).
Proof.
  unfold coll_docs.
  assert (H : List.NoDup (map fst (map_to_list s))).
  { apply NoDup_ListNoDup, NoDup_fst_map_to_list. }
  induction (map_to_list s) as [|[[c i] o] l IH]; simpl in *; [constructor|].
  inversion H as [|? ? Hx Hl]; subst.
  destruct (String.eqb c coll) eqn:E; simpl; [|exact (IH Hl)].
  constructor; [|exact (IH Hl)].
  apply String.eqb_eq in E as ->.
  intros Hi. apply Hx. apply in_map_iff in Hi as [y [Hy Hin]].
  apply list_elem_of_In, list_elem_of_omap in Hin as [[[c' i'] o'] [Hin Hf]].
  simpl in Hf. destruct (String.eqb c' coll) eqn:E'; [|discriminate].
  apply String.eqb_eq in E' as ->. injection Hf as <-. simpl in Hy. subst.
  apply list_elem_of_In in Hin. apply (in_map fst) in Hin. exact Hin.
Qed.

Section Pagination.

Variable where_holds : string -> string -> value -> obj -> bool.
Variable order_docs : list (string * string) -> list snap -> list snap.
(** [orderBy] reorders the result set. *)
Hypothesis order_perm : forall os l, Permutation (order_docs os l) l.

Lemma nodup_ids_run_query (s : gmap key obj) (coll : string) (cs : list constraint) :
  plain_constraints cs = true ->
  List.NoDup (map snap_id (run_query where_holds order_docs s coll cs)).
Proof.
  intros Hp. destruct (plain_no_cursors cs Hp) as [Hs [He Hl]].
  unfold run_query. rewrite Hs, He, Hl.
  eapply Permutation_NoDup; [apply Permutation_map; symmetry; apply order_perm|].
  apply nodup_ids_filter, nodup_ids_coll_docs.
Qed.

Lemma run_query_page (s : gmap key obj) (coll : string) (cs : list constraint)
    (n : nat) (c : jsref) :
  plain_constraints cs = true ->
  run_query where_holds order_docs s coll
    (cs ++ CLimit n :: match c with JRDoc d => [CStartAfter d] | _ => [] end)%list =
  firstn n (remaining (run_query where_holds order_docs s coll cs) c).
Proof.
  intros Hp. destruct (plain_no_cursors cs Hp) as [Hs [He Hl]].
  assert (Hw : forall d : snap,
             forallb (fun c0 => match c0 with
                                | CWhere f op v => where_holds f op v (snap_data d)
                                | _ => true end)
                     (cs ++ CLimit n :: match c with JRDoc d => [CStartAfter d] | _ => [] end)%list =
             forallb (fun c0 => match c0 with
                                | CWhere f op v => where_holds f op v (snap_data d)
                                | _ => true end) cs).
  { intros d. rewrite !forallb_app. destruct c; simpl; rewrite andb_true_r; reflexivity. }
  unfold run_query.
  rewrite (List.filter_ext _ _ Hw).
  assert (Ho : orderBys (cs ++ CLimit n :: match c with JRDoc d => [CStartAfter d] | _ => [] end)%list
               = orderBys cs).
  { unfold orderBys. rewrite !omap_app. destruct c; simpl; rewrite app_nil_r; reflexivity. }
  rewrite Ho, Hs, He, Hl.
  rewrite !last_start_app, !last_end_app, !last_limit_app.
  destruct c; simpl; rewrite ?Hs, ?He, ?Hl; reflexivity.
Qed.

Lemma simplePaginate_page (b : QueryBuilder) (P : nat) (c : jsref) (w : world) :
  plain_constraints (constraints b) = true ->
  let R := remaining (run_query where_holds order_docs (w_store w) (qb_coll b) (constraints b)) c in
  simplePaginate where_holds order_docs b P c w =
    (Ok {| sp_data := map to_plain (firstn P R);
           nextCursor := if Nat.ltb P (length R) then
                           match last (firstn P R) with Some d => JRDoc d | None => JRUndef end
                         else JRNull;
           hasMorePages := Nat.ltb P (length R) |},
     log (IORead (qb_coll b)) w).
Proof.
  intros Hp R. unfold simplePaginate, getDocs, bind, modify, gets, ret. simpl.
  rewrite run_query_page by exact Hp. fold R.
  rewrite length_firstn.
  assert (Hlt : Nat.ltb P (Nat.min (P + 1) (length R)) = Nat.ltb P (length R)).
  { destruct (Nat.ltb P (length R)) eqn:E.
    - apply Nat.ltb_lt in E. apply Nat.ltb_lt. lia.
    - apply Nat.ltb_ge in E. apply Nat.ltb_ge. lia. }
  rewrite Hlt.
  destruct (Nat.ltb P (length R)) eqn:E.
  - rewrite firstn_firstn. replace (Nat.min P (P + 1)) with P by lia. reflexivity.
  - apply Nat.ltb_ge in E.
    rewrite (firstn_all2 (n := P + 1)) by lia. rewrite (firstn_all2 (n := P)) by lia.
    reflexivity.
Qed.

Lemma drain_remaining (b : QueryBuilder) (P : nat) (s : gmap key obj) :
  1 <= P -> plain_constraints (constraints b) = true ->
  let L := run_query where_holds order_docs s (qb_coll b) (constraints b) in
  forall (fuel : nat) (c : jsref) (pre : list snap) (w : world),
    w_store w = s -> L = (pre ++ remaining L c)%list -> length (remaining L c) < fuel ->
    exists w', drain_simplePaginate where_holds order_docs fuel b P c w =
                 (Ok (Some (map to_plain (remaining L c))), w') /\ w_store w' = s.
Proof.
  intros HP Hp L fuel. induction fuel as [|f IH]; intros c pre w Hs HL Hf; [lia|].
  assert (Hnd : List.NoDup (map snap_id L)) by (apply nodup_ids_run_query, Hp).
  simpl drain_simplePaginate. unfold bind at 1.
  rewrite simplePaginate_page by exact Hp. rewrite Hs. fold L.
  set (R := remaining L c) in *. simpl hasMorePages.
  destruct (Nat.ltb P (length R)) eqn:E.
  - apply Nat.ltb_lt in E.
    assert (Hne : firstn P R <> []).
    { intros H0. apply (f_equal length) in H0. rewrite length_firstn in H0. simpl in H0. lia. }
    destruct (exists_last Hne) as [xs [d Hxd]].
    rewrite Hxd, last_snoc. simpl nextCursor.
    assert (HR : R = (xs ++ d :: skipn P R)%list).
    { rewrite <- (firstn_skipn P R) at 1. rewrite Hxd, <- app_assoc. reflexivity. }
    assert (Hrem : remaining L (JRDoc d) = skipn P R).
    { simpl. set (T := skipn P R) in *. rewrite HL, HR, app_assoc. apply after_split.
      rewrite HL, HR, app_assoc, map_app in Hnd. simpl in Hnd.
      apply NoDup_remove_2 in Hnd. intros Hi. apply Hnd. apply in_or_app. left. exact Hi. }
    destruct (IH (JRDoc d) (pre ++ xs ++ [d])%list (log (IORead (qb_coll b)) w))
      as [w' [Hd Hs']].
    { simpl. exact Hs. }
    { rewrite Hrem. rewrite HL at 1. fold R. rewrite HR at 1.
      rewrite <- !app_assoc. reflexivity. }
    { rewrite Hrem, length_skipn. lia. }
    exists w'. split; [|exact Hs'].
    rewrite Hrem in Hd. unfold bind. cbn [hasMorePages nextCursor sp_data]. rewrite Hd. simpl.
    rewrite <- Hxd, <- map_app, firstn_skipn.
    reflexivity.
  - apply Nat.ltb_ge in E. exists (log (IORead (qb_coll b)) w). split; [|exact Hs].
    rewrite firstn_all2 by lia. reflexivity.
Qed.

(** C6, for [perPage >= 1]: on a query with only [where] and [orderBy]
    constraints and a store left alone, the caller's chain of
    [simplePaginate] calls, started without a cursor and fed each
    [nextCursor], ends after at most [N + 1] calls ([N] the size of the
    full result) and the concatenated pages are the full result in query
    order, with no row twice.  On each call, with [R] the rows after the
    cursor, [hasMorePages] holds iff more than [P] rows remain, the page
    is the first [P] rows of [R], and [nextCursor] is the last row of the
    page when [hasMorePages] holds and [null] otherwise. *)
Theorem simplePaginate_chain (b : QueryBuilder) (P : nat) (w : world) :
  1 <= P -> plain_constraints (constraints b) = true ->
  let L := run_query where_holds order_docs (w_store w) (qb_coll b) (constraints b) in
  List.NoDup (map snap_id L) /\
  (exists w', drain_simplePaginate where_holds order_docs (length L + 1) b P JRUndef w =
                (Ok (Some (map to_plain L)), w') /\ w_store w' = w_store w) /\
  (forall c : jsref,
     let R := remaining L c in
     exists r : simple_page,
       simplePaginate where_holds order_docs b P c w = (Ok r, log (IORead (qb_coll b)) w) /\
       (hasMorePages r = true <-> P < length R) /\
       sp_data r = map to_plain (firstn P R) /\
       (P < length R -> exists d, last (firstn P R) = Some d /\ nextCursor r = JRDoc d) /\
       (length R <= P -> nextCursor r = JRNull)).
Proof.
  intros HP Hp L. split; [apply nodup_ids_run_query, Hp|]. split.
  - destruct (drain_remaining b P (w_store w) HP Hp (length L + 1) JRUndef [] w eq_refl)
      as [w' [Hd Hs]]; [reflexivity|unfold L; cbn [remaining]; lia|].
    exists w'. split; [exact Hd|exact Hs].
  - intros c R. eexists. split; [apply simplePaginate_page, Hp|]. fold L R. simpl.
    split; [|split; [reflexivity|split]].
    + rewrite Nat.ltb_lt. reflexivity.
    + intros E. apply Nat.ltb_lt in E as E'. rewrite E'.
      assert (Hne : firstn P R <> []).
      { intros H0. apply (f_equal length) in H0. rewrite length_firstn in H0. simpl in H0. lia. }
      destruct (exists_last Hne) as [xs [d Hxd]].
      exists d. rewrite Hxd, last_snoc. split; reflexivity.
    + intros E. assert (E' : Nat.ltb P (length R) = false) by (apply Nat.ltb_ge; exact E).
      rewrite E'. reflexivity.
Qed.

End Pagination.

(** ** Queued operations *)

(** C2, the claim as stated, fails for [ctx.deleteSubcollection]: called
    inside the callback, it reads the subcollection
    [users/42/eq] at once. *)
Lemma deleteSubcollection_reads_at_enqueue :
  ~ (forall (a : action) (h : heap) (q : list tx_op) (w : world),
       (ctx_write_action a ||
        match a with ADeleteSubcollection _ _ => true | _ => false end) = true ->
       w_trace (snd (run_action all_where keep_order false a h q w)) = w_trace w).
Proof.
  intros H.
  specialize (H (ADeleteSubcollection 0 "eq") [gym] [] empty_world eq_refl).
  vm_compute in H. discriminate.
Qed.

(** ** Witnesses *)

Lemma deleteAll_batches_witness :
  exists rounds : list (list write),
    length rounds = 1 /\
    fst (qb_deleteAll all_where keep_order (query users) users_world) = Ok 3.
Proof.
  assert (Hd : Forall (fun d => obj_get (snap_data d) "id" = None)
                 (run_query all_where keep_order (w_store users_world) "users" []))
    by (vm_compute; repeat constructor).
  destruct (deleteAll_batches all_where keep_order (query users) users_world Hd)
    as [rounds [Hrun [Hlen _]]].
  exists rounds. split.
  - rewrite Hlen. vm_compute. reflexivity.
  - rewrite Hrun. reflexivity.
Defined.

Lemma static_update_keeps_path_id_witness :
  exists d',
    w_store (snd (static_update users (VNum 42) [("id", VStr "other"); ("name", VStr "x")]
                   (set_store {[("users", "42") := [("name", VStr "A")]]} empty_world)))
      !! ("users", "42") = Some d' /\
    obj_get d' "name" = Some (VStr "x").
Proof.
  destruct (static_update_keeps_path_id users (VNum 42) "42"
              [("id", VStr "other"); ("name", VStr "x")]
              (set_store {[("users", "42") := [("name", VStr "A")]]} empty_world)
              ltac:(vm_compute; reflexivity))
    as [_ [_ [_ [_ [_ H]]]]].
  destruct (H eq_refl [("name", VStr "A")] ltac:(vm_compute; reflexivity))
    as [d' [Hd' [Hn _]]].
  exists d'. split; [exact Hd'|exact Hn].
Defined.

Lemma simplePaginate_chain_witness :
  exists w' : world,
    drain_simplePaginate all_where keep_order 4 (query users) 2 JRUndef users_world =
      (Ok (Some (map to_plain (run_query all_where keep_order three_users "users" []))), w').
Proof.
  destruct (simplePaginate_chain all_where keep_order ltac:(intros; reflexivity)
              (query users) 2 users_world ltac:(lia) ltac:(reflexivity))
    as [_ [[w' [Hd _]] _]].
  exists w'. exact Hd.
Defined.

(* ================================================================== *)
(** * More of [QueryBuilder] and [Model] *)

(** ** Objects and single-document reads *)

Lemma obj_set_new (a : obj) (k : string) (v : value) :
  ~ In k (map fst a) -> obj_set a k v = (a ++ [(k, v)])%list.
Proof.
  induction a as [|[k' v'] a IH]; simpl; intros Hn; [reflexivity|].
  destruct (String.eqb k k') eqn:E.
  - apply String.eqb_eq in E. subst. exfalso. apply Hn. left. reflexivity.
  - rewrite IH; [reflexivity|]. intros Hi. apply Hn. right. exact Hi.
Qed.

Lemma obj_spread_app (a b : obj) :
  List.NoDup (map fst (a ++ b)) -> obj_spread a b = (a ++ b)%list.
Proof.
  unfold obj_spread. revert a.
  induction b as [|[k v] b IH]; intros a Hnd; simpl; [rewrite app_nil_r; reflexivity|].
  rewrite obj_set_new.
  - rewrite IH; [rewrite <- app_assoc; reflexivity|]. rewrite <- app_assoc. exact Hnd.
  - intros Hi. rewrite map_app in Hnd. simpl in Hnd. apply NoDup_remove_2 in Hnd.
    apply Hnd. apply in_or_app. left. exact Hi.
Qed.

(** [{ ...o }] of an object is the object itself. *)
Lemma obj_spread_nil (o : obj) : List.NoDup (map fst o) -> obj_spread [] o = o.
Proof. intros H. apply obj_spread_app. exact H. Qed.

Lemma obj_get_spread (a b : obj) (f : string) :
  List.NoDup (map fst b) ->
  obj_get (obj_spread a b) f = match obj_get b f with Some v => Some v | None => obj_get a f end.
Proof.
  intros Hnd. destruct (obj_get b f) as [v|] eqn:E.
  - apply obj_get_spread_unique; assumption.
  - apply obj_get_spread_other. exact E.
Qed.

Lemma obj_get_spread_nil (o : obj) (f : string) :
  List.NoDup (map fst o) -> obj_get (obj_spread [] o) f = obj_get o f.
Proof. intros H. rewrite obj_spread_nil by exact H. reflexivity. Qed.

Lemma nodup_id_spread (v : value) (o : obj) :
  List.NoDup (map fst (obj_spread [("id", v)] o)).
Proof. apply nodup_spread. constructor; [intros []|constructor]. Qed.

Lemma head_key_set (o : obj) (k k' : string) (v : value) :
  head (map fst o) = Some k -> head (map fst (obj_set o k' v)) = Some k.
Proof.
  destruct o as [|[k0 v0] o]; simpl; [discriminate|].
  intros H. injection H as <-. destruct (String.eqb k' k0) eqn:E; simpl; [|reflexivity].
  apply String.eqb_eq in E. subst. reflexivity.
Qed.

Lemma head_key_spread (a b : obj) (k : string) :
  head (map fst a) = Some k -> head (map fst (obj_spread a b)) = Some k.
Proof.
  unfold obj_spread. revert a.
  induction b as [|[k' v] b IH]; intros a Ha; simpl; [exact Ha|].
  apply IH. apply head_key_set. exact Ha.
Qed.

Lemma find_in_run (coll id : string) (w : world) :
  find_in coll id w =
    (Ok (match w_store w !! (coll, id) with
         | Some o => Some (obj_spread [("id", VStr id)] o)
         | None => None
         end),
     log (IORead (coll ++ "/" ++ id)) w).
Proof. reflexivity. Qed.

Lemma find_run (c : model_class) (id : value) (nid : string) (w : world) :
  normalizeId id = Some nid -> find c id w = find_in (collectionName c) nid w.
Proof. intros H. unfold find, bind, of_option. rewrite H. reflexivity. Qed.

Lemma load_run (c : model_class) (id : value) (nid : string) (w : world) :
  normalizeId id = Some nid ->
  load c id w =
    (Ok (match w_store w !! (collectionName c, nid) with
         | Some o => Some (loaded c (obj_spread [("id", VStr nid)] o))
         | None => None
         end),
     log (IORead (collectionName c ++ "/" ++ nid)) w).
Proof.
  intros H. unfold load, bind at 1. rewrite (find_run c id nid w H), find_in_run.
  destruct (w_store w !! (collectionName c, nid)); reflexivity.
Qed.

Lemma loaded_fields (c : model_class) (data : obj) :
  List.NoDup (map fst data) ->
  attributes (loaded c data) = data /\ original (loaded c data) = data /\
  exists_ (loaded c data) = true /\ i_class (loaded c data) = c /\
  softDeletes (loaded c data) = cls_softDeletes c /\
  timestamps (loaded c data) = cls_timestamps c.
Proof.
  intros H. unfold loaded, new_model, fill. simpl.
  rewrite obj_spread_nil by exact H. repeat split.
Qed.

(** ** [QueryBuilder.create] and [QueryBuilder.update] *)


(** X2: [QueryBuilder.update(id, data)] makes one [updateDoc] write whose
    payload is [data] without [id] and with [updatedAt] set to the current
    time.  On a missing document it fails and nothing changes; on an
    existing one it merges: [updatedAt] is the current time, the stored
    [id] field is kept, every other field takes its value from [data]
    when [data] has it and keeps its stored value otherwise; no other
    document changes. *)
Theorem qb_update_merge (b : QueryBuilder) (id : string) (data : obj) (w : world) :
  let k := (qb_coll b, id) in
  let payload := obj_set (obj_delete (obj_spread [] data) "id") "updatedAt" (VDate (w_clock w)) in
  let w' := snd (qb_update b id data w) in
  w_trace w' = (w_trace w ++ [IOWrite (WUpdate k payload)])%list /\
  (forall k', k' <> k -> w_store w' !! k' = w_store w !! k') /\
  (w_store w !! k = None ->
     fst (qb_update b id data w) = Err "not-found" /\ w_store w' = w_store w) /\
  (forall d, w_store w !! k = Some d ->
     fst (qb_update b id data w) = Ok tt /\
     exists d', w_store w' !! k = Some d' /\
       obj_get d' "updatedAt" = Some (VDate (w_clock w)) /\
       obj_get d' "id" = obj_get d "id" /\
       (List.NoDup (map fst data) ->
        forall f, f <> "id" -> f <> "updatedAt" ->
        obj_get d' f = match obj_get data f with Some v => Some v | None => obj_get d f end)).
Proof.
  intros k payload w'.
  assert (Hrun : qb_update b id data w =
    match w_store w !! k with
    | Some d => (Ok tt, after_io (<[k := obj_spread d payload]> (w_store w))
                                 [IOWrite (WUpdate k payload)] w)
    | None => (Err "not-found", after_io (w_store w) [IOWrite (WUpdate k payload)] w)
    end).
  { unfold qb_update, updateDoc, write1. monad_simpl.
    destruct (w_store w !! _); reflexivity. }
  assert (Hnd : List.NoDup (map fst payload)).
  { apply nodup_set, nodup_delete, nodup_spread. constructor. }
  split; [|split; [|split]].
  - unfold w'. rewrite Hrun. destruct (w_store w !! k); reflexivity.
  - intros k' Hk'. unfold w'. rewrite Hrun. destruct (w_store w !! k); [|reflexivity].
    simpl. apply lookup_insert_ne. congruence.
  - intros Hn. unfold w'. rewrite Hrun, Hn. split; reflexivity.
  - intros d Hd. unfold w'. rewrite Hrun, Hd. split; [reflexivity|].
    exists (obj_spread d payload). simpl. split; [apply lookup_insert_eq|].
    rewrite !(obj_get_spread d payload) by exact Hnd.
    split; [unfold payload; rewrite obj_get_set; reflexivity|].
    split; [unfold payload; rewrite obj_get_set, obj_get_delete; reflexivity|].
    intros Hdn f Hi Hu. rewrite (obj_get_spread d payload) by exact Hnd.
    unfold payload. apply String.eqb_neq in Hi, Hu.
    rewrite obj_get_set, Hu, obj_get_delete, Hi, obj_get_spread_nil by exact Hdn.
    reflexivity.
Qed.

(** ** [findOrFail], [load], [refresh], [toJSON] *)

(** X3: the static [findOrFail(id)] reads the document at the normalised
    id once and never writes: it returns [{ id, ...data }] when the
    document exists and otherwise throws "Model not found with id: "
    followed by the id; a numeric id and its decimal string behave
    alike. *)
Theorem findOrFail_spec (c : model_class) (id : value) (nid : string) (w : world) :
  normalizeId id = Some nid ->
  findOrFail c id w =
    (match w_store w !! (collectionName c, nid) with
     | Some o => Ok (obj_spread [("id", VStr nid)] o)
     | None => Err ("Model not found with id: " ++ nid)
     end,
     log (IORead (collectionName c ++ "/" ++ nid)) w) /\
  findOrFail c (VStr nid) w = findOrFail c id w.
Proof.
  intros H. split.
  - unfold findOrFail, bind at 1. rewrite (find_run c id nid w H), find_in_run, H.
    destruct (w_store w !! (collectionName c, nid)); reflexivity.
  - unfold findOrFail. rewrite H. unfold find, bind, of_option. rewrite H. reflexivity.
Qed.

(** X4: the static [load(id)] reads the document once and never writes;
    a missing document gives [null]; an existing one gives an instance of
    the class with [exists = true], no unsaved changes, and attributes
    [{ id, ...data }], so that its [id] attribute is the normalised (string)
    id unless the stored data has an [id] field of its own. *)
Theorem load_spec (c : model_class) (id : value) (nid : string) (w : world) :
  normalizeId id = Some nid ->
  let k := (collectionName c, nid) in
  snd (load c id w) = log (IORead (collectionName c ++ "/" ++ nid)) w /\
  (w_store w !! k = None -> fst (load c id w) = Ok None) /\
  (forall o, w_store w !! k = Some o ->
     exists m, fst (load c id w) = Ok (Some m) /\
       i_class m = c /\ exists_ m = true /\ isDirty m = false /\
       attributes m = obj_spread [("id", VStr nid)] o /\
       (obj_get o "id" = None -> obj_get (attributes m) "id" = Some (VStr nid))).
Proof.
  intros H k. rewrite (load_run c id nid w H). fold k.
  split; [reflexivity|]. split; [intros ->; reflexivity|].
  intros o Ho. rewrite Ho.
  destruct (loaded_fields c (obj_spread [("id", VStr nid)] o) (nodup_id_spread _ _))
    as [Ha [Horig [He [Hc _]]]].
  exists (loaded c (obj_spread [("id", VStr nid)] o)).
  split; [reflexivity|]. split; [exact Hc|]. split; [exact He|].
  split; [apply isDirty_clean; rewrite Ha, Horig; reflexivity|].
  split; [exact Ha|].
  intros Hn. rewrite Ha, obj_get_spread_other by exact Hn. reflexivity.
Qed.

(** X5: [refresh()] throws "Cannot refresh a model without an ID" without
    any I/O when the [id] attribute is undefined.  Otherwise it reads the
    document once and never writes; when the document is gone it returns
    the instance unchanged (stale attributes, [exists] as before); when it
    exists the attributes become [{ id, ...data }] of the stored document
    with no unsaved changes, and [exists] and the class settings are
    kept. *)
Theorem refresh_spec (m : instance) (w : world) :
  (id_undefined (attributes m) = true ->
     refresh m w = (Err "Cannot refresh a model without an ID", w)) /\
  (forall nid, normalizeId (attr_id (attributes m)) = Some nid ->
     let k := (coll_of m, nid) in
     (w_store w !! k = None ->
        refresh m w = (Ok m, log (IORead (coll_of m ++ "/" ++ nid)) w)) /\
     (forall o, w_store w !! k = Some o ->
        exists m', refresh m w = (Ok m', log (IORead (coll_of m ++ "/" ++ nid)) w) /\
          attributes m' = obj_spread [("id", VStr nid)] o /\
          isDirty m' = false /\
          exists_ m' = exists_ m /\ i_class m' = i_class m /\
          softDeletes m' = softDeletes m /\ timestamps m' = timestamps m)).
Proof.
  split.
  - intros H. unfold refresh. rewrite H. reflexivity.
  - intros nid Hn k.
    assert (Hu : id_undefined (attributes m) = false).
    { unfold id_undefined. unfold attr_id in Hn.
      destruct (obj_get (attributes m) "id") as [[]|]; simpl in Hn; congruence. }
    assert (Hr : refresh m w =
      (Ok (match w_store w !! k with
           | Some o =>
               with_original (obj_spread [] (attributes (loaded (i_class m) (obj_spread [("id", VStr nid)] o))))
                 (with_attrs (attributes (loaded (i_class m) (obj_spread [("id", VStr nid)] o))) m)
           | None => m
           end), log (IORead (coll_of m ++ "/" ++ nid)) w)).
    { unfold refresh. rewrite Hu. unfold bind at 1.
      rewrite (load_run (i_class m) _ nid w Hn). fold (coll_of m) k.
      destruct (w_store w !! k); reflexivity. }
    rewrite Hr. split; [intros ->; reflexivity|].
    intros o Ho. rewrite Ho.
    destruct (loaded_fields (i_class m) (obj_spread [("id", VStr nid)] o) (nodup_id_spread _ _))
      as [Ha _].
    rewrite Ha, obj_spread_nil by apply nodup_id_spread.
    eexists. split; [reflexivity|]. simpl.
    split; [reflexivity|]. split; [apply isDirty_clean; reflexivity|].
    repeat split.
Qed.

(** X6: [toJSON()] always has an [id] key, as its first key, holding
    [attributes.id] ([undefined] when the attributes have none), and every
    other key holds the attribute's value; keys stay unique. *)
Theorem toJSON_includes_id (m : instance) :
  List.NoDup (map fst (attributes m)) ->
  head (map fst (toJSON m)) = Some "id" /\
  obj_get (toJSON m) "id" = Some (attr_id (attributes m)) /\
  (forall f, f <> "id" -> obj_get (toJSON m) f = obj_get (attributes m) f) /\
  List.NoDup (map fst (toJSON m)).
Proof.
  intros Hnd. unfold toJSON. split; [|split; [|split]].
  - apply head_key_spread. reflexivity.
  - rewrite obj_get_spread by exact Hnd. unfold attr_id.
    destruct (obj_get (attributes m) "id"); reflexivity.
  - intros f Hf. rewrite obj_get_spread by exact Hnd.
    apply String.eqb_neq in Hf. simpl. rewrite Hf.
    destruct (obj_get (attributes m) f); reflexivity.
  - apply nodup_id_spread.
Qed.

(** ** The static [destroy(id)] *)

Lemma bind_ok {A B} (m : M A) (f : A -> M B) (w w' : world) (a : A) :
  m w = (Ok a, w') -> bind m f w = f a w'.
Proof. intros H. unfold bind. rewrite H. reflexivity. Qed.

(** X7: the static [destroy(id)] reads the document at the normalised id
    first: a missing document means one read and no write.  An existing
    one is turned into a model and deleted through the instance
    [delete()], so (for a class without soft deletes) the document
    removed is the one named by the [id] of [{ id, ...data }], which is
    the stored data's own [id] field when it has one; for a class with
    soft deletes and data without an [id] field, the document is kept
    and gets [deletedAt] set to the current time. *)
Theorem destroy_spec (c : model_class) (id : value) (nid : string) (w : world) :
  normalizeId id = Some nid ->
  let k : key := (collectionName c, nid) in
  let w' := snd (destroy c id w) in
  (w_store w !! k = None ->
     destroy c id w = (Ok tt, log (IORead (collectionName c ++ "/" ++ nid)) w)) /\
  (cls_softDeletes c = false ->
   forall o y, w_store w !! k = Some o ->
     obj_get (obj_spread [("id", VStr nid)] o) "id" = Some (VStr y) -> y <> "" ->
     fst (destroy c id w) = Ok tt /\
     w_trace w' = (w_trace w ++ [IORead (collectionName c ++ "/" ++ nid);
                                 IOWrite (WDelete (collectionName c, y))])%list /\
     w_store w' = delete (collectionName c, y) (w_store w)) /\
  (cls_softDeletes c = true ->
   forall o, w_store w !! k = Some o -> obj_get o "id" = None -> nid <> "" ->
     fst (destroy c id w) = Ok tt /\
     (forall k', k' <> k -> w_store w' !! k' = w_store w !! k') /\
     exists d', w_store w' !! k = Some d' /\
       obj_get d' "deletedAt" = Some (VDate (w_clock w))).
Proof.
  intros H k w'.
  assert (Hrun : destroy c id w =
    match w_store w !! k with
    | Some o => (delete_ (with_exists true (new_model c (Some (obj_spread [("id", VStr nid)] o))))
                 ;;; ret tt) (log (IORead (collectionName c ++ "/" ++ nid)) w)
    | None => (Ok tt, log (IORead (collectionName c ++ "/" ++ nid)) w)
    end).
  { unfold destroy, bind at 1. rewrite (find_run c id nid w H), find_in_run.
    change (@lookup (string * string) obj _ _ (collectionName c, nid) (w_store w))
      with (w_store w !! k).
    destruct (w_store w !! k); reflexivity. }
  split; [|split].
  - intros Hn. rewrite Hrun, Hn. reflexivity.
  - intros Hsd o y Ho Hy Hne.
    unfold w'. rewrite Hrun, Ho.
    set (D := obj_spread [("id", VStr nid)] o) in *.
    assert (HD : obj_spread [] D = D) by (apply obj_spread_nil, nodup_id_spread).
    assert (Ht : id_truthy D = true).
    { unfold id_truthy. rewrite Hy. simpl. apply String.eqb_neq in Hne. rewrite Hne. reflexivity. }
    unfold delete_, performDelete, normalized_id, deleteDoc, write1, new_model, fill.
    monad_simpl. rewrite HD, Ht, Hsd, Hy. simpl.
    split; [reflexivity|]. split; [rewrite <- app_assoc; reflexivity|reflexivity].
  - intros Hsd o Ho Hn Hne.
    unfold w'. rewrite Hrun, Ho.
    set (D := obj_spread [("id", VStr nid)] o) in *.
    assert (HD : obj_spread [] D = D) by (apply obj_spread_nil, nodup_id_spread).
    assert (Hy : obj_get D "id" = Some (VStr nid)).
    { unfold D. rewrite obj_get_spread_other by exact Hn. reflexivity. }
    assert (Ht : id_truthy D = true).
    { unfold id_truthy. rewrite Hy. simpl. apply String.eqb_neq in Hne. rewrite Hne. reflexivity. }
    set (m1 := set "deletedAt" (VDate (w_clock w)) (with_exists true (new_model c (Some D)))).
    assert (Hm1 : obj_get (attributes m1) "id" = Some (VStr nid) /\
                  obj_get (attributes m1) "deletedAt" = Some (VDate (w_clock w)) /\
                  exists_ m1 = true).
    { unfold m1, set, new_model, fill. simpl. rewrite HD, !obj_get_set.
      simpl. rewrite Hy. repeat split. }
    destruct Hm1 as [Hm1i [Hm1d Hm1e]].
    assert (Hp : obj_get (prepareDataForSave true m1) "deletedAt" = Some (VDate (w_clock w))).
    { unfold prepareDataForSave.
      destruct (timestamps m1); cbv beta iota; rewrite ?obj_get_set, obj_get_delete; exact Hm1d. }
    assert (Hnd : List.NoDup (map fst (prepareDataForSave true m1))).
    { unfold prepareDataForSave. destruct (timestamps m1); cbv beta iota;
        [apply nodup_set|]; apply nodup_delete;
        unfold m1, set, new_model, fill; simpl; rewrite HD; apply nodup_set, nodup_id_spread. }
    set (m0 := with_exists true (new_model c (Some D))) in *.
    assert (Hdel : delete_ m0 = performSoftDelete m0).
    { unfold delete_, m0. simpl. unfold fill. simpl. rewrite HD, Ht, Hsd. reflexivity. }
    set (w1 := log (IORead (collectionName c ++ "/" ++ nid)) w).
    set (P := prepareDataForSave true m1).
    assert (Hsave : save m1 w1 =
      (Ok (with_original (attributes m1) m1),
       set_store (<[k := obj_spread o P]> (w_store w)) (log (IOWrite (WUpdate k P)) w1))).
    { unfold save. rewrite Hm1e. unfold performUpdate, id_undefined. rewrite Hm1i.
      unfold normalized_id, bind, of_option, ret. rewrite Hm1i. simpl.
      change (coll_of m1) with (collectionName c). fold k.
      unfold updateDoc, write1. simpl. change (w_store w1) with (w_store w).
      rewrite Ho. reflexivity. }
    assert (Hps : performSoftDelete m0 w1 = save m1 w1) by reflexivity.
    rewrite (bind_ok _ _ _ _ _ (eq_trans (f_equal (fun f => f w1) Hdel) (eq_trans Hps Hsave))).
    simpl. split; [reflexivity|]. split.
    + intros k' Hk'. apply lookup_insert_ne. congruence.
    + eexists. split; [apply lookup_insert_eq|].
      rewrite obj_get_spread by exact Hnd. unfold P. rewrite Hp. reflexivity.
Qed.

(** ** [count], [exists], [first], [firstOrFail] *)

Section Queries.

Variable where_holds : string -> string -> value -> obj -> bool.
Variable order_docs : list (string * string) -> list snap -> list snap.

Lemma head_firstn_S {A} (n : nat) (l : list A) : head (firstn (S n) l) = head l.
Proof. destruct l; reflexivity. Qed.

Lemma head_map_plain (l : list snap) : head (map to_plain l) = option_map to_plain (head l).
Proof. destruct l; reflexivity. Qed.

(** A further [limit(n + 1)] keeps the first row of a query whose own
    limit, if any, is not 0. *)
Lemma head_run_query_limit (s : gmap key obj) (coll : string) (cs : list constraint) (n : nat) :
  last_limit cs <> Some 0 ->
  head (run_query where_holds order_docs s coll (cs ++ [CLimit (S n)])%list) =
  head (run_query where_holds order_docs s coll cs).
Proof.
  intros Hl.
  assert (Hw : forall d : snap,
             forallb (fun c0 => match c0 with
                                | CWhere f op v => where_holds f op v (snap_data d)
                                | _ => true end) (cs ++ [CLimit (S n)])%list =
             forallb (fun c0 => match c0 with
                                | CWhere f op v => where_holds f op v (snap_data d)
                                | _ => true end) cs).
  { intros d. rewrite forallb_app. simpl. rewrite andb_true_r. reflexivity. }
  unfold run_query. rewrite (List.filter_ext _ _ Hw).
  assert (Ho : orderBys (cs ++ [CLimit (S n)])%list = orderBys cs).
  { unfold orderBys. rewrite omap_app. simpl. rewrite app_nil_r. reflexivity. }
  rewrite Ho, last_start_app, last_end_app, last_limit_app.
  cbn [last_start last_end last_limit].
  rewrite head_firstn_S.
  destruct (last_limit cs) as [[|m]|]; [contradiction Hl; reflexivity | |reflexivity].
  rewrite head_firstn_S. reflexivity.
Qed.

(** X8: [count()], [exists()], [first()] and [firstOrFail()] each run the
    builder's query once and never write: [count] is the number of
    result rows, [exists] tells whether there is one, [first] gives the
    first row as [{ id, ...data }] or [null] (overriding any earlier
    limit other than 0), and [firstOrFail] gives the same row or throws
    "No results found" exactly when [exists] is false.  [first] and
    [firstOrFail] return the builder with [limit(1)] appended. *)
Theorem count_exists_first (b : QueryBuilder) (w : world) :
  last_limit (constraints b) <> Some 0 ->
  let L := run_query where_holds order_docs (w_store w) (qb_coll b) (constraints b) in
  qb_count where_holds order_docs b w = (Ok (length L), log (IORead (qb_coll b)) w) /\
  qb_exists where_holds order_docs b w = (Ok (Nat.ltb 0 (length L)), log (IORead (qb_coll b)) w) /\
  qb_first where_holds order_docs b w =
    (Ok (option_map to_plain (head L), qb_limit 1 b), log (IORead (qb_coll b)) w) /\
  qb_firstOrFail where_holds order_docs b w =
    (match head L with
     | Some d => Ok (to_plain d, qb_limit 1 b)
     | None => Err "No results found"
     end, log (IORead (qb_coll b)) w).
Proof.
  intros Hl L.
  assert (Hg : forall b', qb_get where_holds order_docs b' w =
     (Ok (map to_plain (run_query where_holds order_docs (w_store w) (qb_coll b') (constraints b'))),
      log (IORead (qb_coll b')) w)) by (intros; reflexivity).
  assert (Hc : qb_count where_holds order_docs b w = (Ok (length L), log (IORead (qb_coll b)) w)).
  { unfold qb_count. rewrite (bind_ok _ _ _ _ _ (Hg b)). unfold ret.
    rewrite length_map. reflexivity. }
  assert (Hf : qb_first where_holds order_docs b w =
     (Ok (option_map to_plain (head L), qb_limit 1 b), log (IORead (qb_coll b)) w)).
  { unfold qb_first. cbv zeta. rewrite (bind_ok _ _ _ _ _ (Hg (qb_limit 1 b))). unfold ret.
    change (constraints (qb_limit 1 b)) with (constraints b ++ [CLimit 1])%list.
    rewrite head_map_plain, head_run_query_limit by exact Hl. reflexivity. }
  split; [exact Hc|]. split.
  - unfold qb_exists. rewrite (bind_ok _ _ _ _ _ Hc). reflexivity.
  - split; [exact Hf|].
    unfold qb_firstOrFail. rewrite (bind_ok _ _ _ _ _ Hf). simpl.
    destruct (head L); reflexivity.
Qed.

End Queries.

(** ** [cursorPaginate()] *)

Lemma after_split_id (c d : snap) (xs ys : list snap) :
  snap_id d = snap_id c -> ~ In (snap_id c) (map snap_id xs) ->
  after c (xs ++ d :: ys) = ys.
Proof.
  intros Hd. induction xs as [|x xs IH]; simpl; intros Hn.
  - rewrite Hd, String.eqb_refl. reflexivity.
  - destruct (String.eqb (snap_id x) (snap_id c)) eqn:E.
    + apply String.eqb_eq in E. exfalso. apply Hn. left. exact E.
    + apply IH. intros Hi. apply Hn. right. exact Hi.
Qed.

Lemma before_split_id (c d : snap) (xs ys : list snap) :
  snap_id d = snap_id c -> ~ In (snap_id c) (map snap_id xs) ->
  before c (xs ++ d :: ys) = xs.
Proof.
  intros Hd. induction xs as [|x xs IH]; simpl; intros Hn.
  - rewrite Hd, String.eqb_refl. reflexivity.
  - destruct (String.eqb (snap_id x) (snap_id c)) eqn:E.
    + apply String.eqb_eq in E. exfalso. apply Hn. left. exact E.
    + rewrite IH; [reflexivity|]. intros Hi. apply Hn. right. exact Hi.
Qed.

Lemma getDocs_run (where_holds : string -> string -> value -> obj -> bool)
    (order_docs : list (string * string) -> list snap -> list snap)
    (coll : string) (cs : list constraint) (w : world) :
  getDocs where_holds order_docs coll cs w =
    (Ok (run_query where_holds order_docs (w_store w) coll cs), log (IORead coll) w).
Proof. reflexivity. Qed.

Lemma firstn_firstn_S {A} (P : nat) (l : list A) : firstn P (firstn (P + 1) l) = firstn P l.
Proof. rewrite firstn_firstn. f_equal. lia. Qed.

Section Cursors.

Variable where_holds : string -> string -> value -> obj -> bool.
Variable order_docs : list (string * string) -> list snap -> list snap.
(** [orderBy] reorders the result set. *)
Hypothesis order_perm : forall os l, Permutation (order_docs os l) l.

Lemma run_query_cursor (s : gmap key obj) (coll : string) (cs cc : list constraint) (n : nat) :
  plain_constraints cs = true ->
  Forall (fun c => exists d, c = CStartAfter d \/ c = CEndBefore d) cc ->
  run_query where_holds order_docs s coll (cs ++ cc ++ [CLimit n])%list =
  firstn n (match last_end cc with
            | Some e => before e (match last_start cc with
                                  | Some d => after d (run_query where_holds order_docs s coll cs)
                                  | None => run_query where_holds order_docs s coll cs
                                  end)
            | None => match last_start cc with
                      | Some d => after d (run_query where_holds order_docs s coll cs)
                      | None => run_query where_holds order_docs s coll cs
                      end
            end).
Proof.
  intros Hp Hcc. destruct (plain_no_cursors cs Hp) as [Hs [He Hl]].
  assert (Hw : forall d : snap,
             forallb (fun c0 => match c0 with
                                | CWhere f op v => where_holds f op v (snap_data d)
                                | _ => true end) (cs ++ cc ++ [CLimit n])%list =
             forallb (fun c0 => match c0 with
                                | CWhere f op v => where_holds f op v (snap_data d)
                                | _ => true end) cs).
  { intros d. rewrite !forallb_app. simpl.
    assert (Hc : forallb (fun c0 => match c0 with
                                    | CWhere f op v => where_holds f op v (snap_data d)
                                    | _ => true end) cc = true).
    { induction Hcc as [|c cc [d' [-> | ->]] _ IH]; simpl; auto. }
    rewrite Hc, !andb_true_r. reflexivity. }
  unfold run_query. rewrite (List.filter_ext _ _ Hw).
  assert (Ho : orderBys (cs ++ cc ++ [CLimit n])%list = orderBys cs).
  { unfold orderBys. rewrite !omap_app.
    assert (Hc : omap (fun c => match c with COrderBy f d => Some (f, d) | _ => None end) cc = []).
    { clear Hw. induction Hcc as [|c cc [d' [-> | ->]] _ IH]; [reflexivity|exact IH|exact IH]. }
    rewrite Hc. simpl. rewrite app_nil_r. reflexivity. }
  rewrite Ho, !last_start_app, !last_end_app, !last_limit_app, Hs, He, Hl.
  cbn [last_start last_end last_limit].
  destruct (last_start cc), (last_end cc); reflexivity.
Qed.

Lemma run_query_in_store (s : gmap key obj) (coll : string) (cs : list constraint) (d : snap) :
  plain_constraints cs = true ->
  In d (run_query where_holds order_docs s coll cs) ->
  s !! (coll, snap_id d) = Some (snap_data d).
Proof.
  intros Hp Hin. destruct (plain_no_cursors cs Hp) as [Hs [He Hl]].
  unfold run_query in Hin. rewrite Hs, He, Hl in Hin.
  apply (Permutation_in _ (order_perm _ _)) in Hin.
  apply filter_In in Hin as [Hin _].
  unfold coll_docs in Hin. apply list_elem_of_In, list_elem_of_omap in Hin as [[[c i] o] [Hin Hf]].
  simpl in Hf. destruct (String.eqb c coll) eqn:E; [|discriminate].
  apply String.eqb_eq in E. subst. injection Hf as <-. simpl.
  apply elem_of_map_to_list in Hin. exact Hin.
Qed.

Lemma nodup_split_notin (pre post : list snap) (d : snap) :
  List.NoDup (map snap_id (pre ++ d :: post)%list) -> ~ In (snap_id d) (map snap_id pre).
Proof.
  intros H Hi. rewrite map_app in H. simpl in H. apply NoDup_remove_2 in H.
  apply H. apply in_or_app. left. exact Hi.
Qed.

(** [cursorPaginate] once the cursor constraints are known. *)
Lemma cursorPaginate_run (b : QueryBuilder) (P : nat) (a bc : option string)
    (w w1 : world) (cc : list constraint) :
  plain_constraints (constraints b) = true -> 1 <= P ->
  cursor_constraints b a bc w = (Ok cc, w1) -> w_store w1 = w_store w ->
  Forall (fun c => exists d, c = CStartAfter d \/ c = CEndBefore d) cc ->
  let L := run_query where_holds order_docs (w_store w) (qb_coll b) (constraints b) in
  let R := match last_end cc with
           | Some e => before e (match last_start cc with Some d => after d L | None => L end)
           | None => match last_start cc with Some d => after d L | None => L end
           end in
  cursorPaginate where_holds order_docs b P a bc w =
    (Ok (cursor_page_of P R (opt_truthy a || opt_truthy bc)), log (IORead (qb_coll b)) w1).
Proof.
  intros Hp HP Hcc Hs Hf L R.
  unfold cursorPaginate. rewrite (bind_ok _ _ _ _ _ Hcc). cbv beta.
  rewrite (bind_ok _ _ _ _ _ (getDocs_run _ _ _ _ w1)).
  rewrite run_query_cursor by assumption. rewrite Hs. fold L. fold R.
  rewrite length_firstn.
  assert (Hlt : Nat.ltb P (Nat.min (P + 1) (length R)) = Nat.ltb P (length R)).
  { destruct (Nat.ltb P (length R)) eqn:E.
    - apply Nat.ltb_lt in E. apply Nat.ltb_lt. lia.
    - apply Nat.ltb_ge in E. apply Nat.ltb_ge. lia. }
  rewrite Hlt. unfold cursor_page_of.
  destruct (Nat.ltb P (length R)) eqn:E.
  - rewrite firstn_firstn_S.
    destruct (last (firstn P R)) as [d|] eqn:El.
    + reflexivity.
    + apply last_None in El. apply Nat.ltb_lt in E.
      apply (f_equal length) in El. rewrite length_firstn in El. simpl in El. lia.
  - apply Nat.ltb_ge in E.
    rewrite (firstn_all2 (n := P + 1)) by lia. rewrite (firstn_all2 (n := P)) by lia.
    reflexivity.
Qed.

Lemma cursor_none_run (b : QueryBuilder) (w : world) :
  cursor_constraints b None None w = (Ok [], w) /\
  cursor_constraints b (Some "") None w = (Ok [], w).
Proof. split; reflexivity. Qed.

Lemma cursor_after_run (b : QueryBuilder) (a : string) (bc : option string) (w : world) :
  a <> "" ->
  cursor_constraints b (Some a) bc w =
    (Ok (match w_store w !! (qb_coll b, a) with
         | Some o => [CStartAfter {| snap_id := a; snap_data := o |}]
         | None => []
         end),
     log (IORead (qb_coll b ++ "/" ++ a)) w).
Proof.
  intros H. unfold cursor_constraints. apply String.eqb_neq in H. rewrite H.
  reflexivity.
Qed.

Lemma cursor_before_run (b : QueryBuilder) (bc : string) (w : world) :
  bc <> "" ->
  cursor_constraints b None (Some bc) w =
    (Ok (match w_store w !! (qb_coll b, bc) with
         | Some o => [CEndBefore {| snap_id := bc; snap_data := o |}]
         | None => []
         end),
     log (IORead (qb_coll b ++ "/" ++ bc)) w).
Proof.
  intros H. unfold cursor_constraints. apply String.eqb_neq in H. rewrite H.
  reflexivity.
Qed.

(** An [afterCursor] naming a row of the result pages through the rows
    after it. *)
Lemma cursorPaginate_after_row (b : QueryBuilder) (P : nat) (a : string) (w : world)
    (pre post : list snap) (d : snap) :
  plain_constraints (constraints b) = true -> 1 <= P -> a <> "" ->
  run_query where_holds order_docs (w_store w) (qb_coll b) (constraints b) =
    (pre ++ d :: post)%list ->
  snap_id d = a ->
  cursorPaginate where_holds order_docs b P (Some a) None w =
    (Ok (cursor_page_of P post true),
     log (IORead (qb_coll b)) (log (IORead (qb_coll b ++ "/" ++ a)) w)).
Proof.
  intros Hp HP Ha HL Hd.
  assert (Hin : w_store w !! (qb_coll b, a) = Some (snap_data d)).
  { rewrite <- Hd. apply (run_query_in_store _ _ (constraints b)); [exact Hp|].
    rewrite HL. apply in_or_app. right. left. reflexivity. }
  assert (Hn : ~ In (snap_id d) (map snap_id pre)).
  { apply (nodup_split_notin pre post d). rewrite <- HL.
    apply nodup_ids_run_query; assumption. }
  pose proof (cursor_after_run b a None w Ha) as Hc. rewrite Hin in Hc.
  pose proof (cursorPaginate_run b P (Some a) None w _ _ Hp HP Hc eq_refl
                ltac:(repeat constructor; eexists; left; reflexivity)) as Hr.
  cbv zeta in Hr. cbn [last_start last_end] in Hr. rewrite Hr. rewrite HL.
  rewrite (after_split_id _ d) by (simpl; congruence).
  apply String.eqb_neq in Ha. simpl. rewrite Ha. reflexivity.
Qed.

(** X9: [cursorPaginate()] on a query of [where]/[orderBy] constraints,
    with [perPage >= 1]: without an [afterCursor] (or with an empty one)
    it gives the first page of the result with [hasPrevPage] false; with
    an [afterCursor] naming a row of the result it reads that document
    and gives the page of the rows after it; with an [afterCursor] whose
    document does not exist it gives the first page, yet reports
    [hasPrevPage] true.  A page of rows [R] holds the first [perPage] of
    them, [hasNextPage] tells whether [R] has more, [nextCursor] is the
    id of the page's last row when it does and [null] otherwise, and
    [prevCursor] is the id of the page's first row. *)
Theorem cursorPaginate_after (b : QueryBuilder) (P : nat) (a : string) (w : world) :
  plain_constraints (constraints b) = true -> 1 <= P ->
  let L := run_query where_holds order_docs (w_store w) (qb_coll b) (constraints b) in
  let w' := log (IORead (qb_coll b)) (log (IORead (qb_coll b ++ "/" ++ a)) w) in
  cursorPaginate where_holds order_docs b P None None w =
    (Ok (cursor_page_of P L false), log (IORead (qb_coll b)) w) /\
  cursorPaginate where_holds order_docs b P (Some "") None w =
    (Ok (cursor_page_of P L false), log (IORead (qb_coll b)) w) /\
  (a <> "" -> forall pre d post, L = (pre ++ d :: post)%list -> snap_id d = a ->
     cursorPaginate where_holds order_docs b P (Some a) None w =
       (Ok (cursor_page_of P post true), w')) /\
  (a <> "" -> w_store w !! (qb_coll b, a) = None ->
     cursorPaginate where_holds order_docs b P (Some a) None w =
       (Ok (cursor_page_of P L true), w')).
Proof.
  intros Hp HP L w'. destruct (cursor_none_run b w) as [Hn1 Hn2].
  split; [|split; [|split]].
  - pose proof (cursorPaginate_run b P None None w _ _ Hp HP Hn1 eq_refl
                  (List.Forall_nil _)) as Hr.
    cbv zeta in Hr. cbn [last_start last_end] in Hr. exact Hr.
  - pose proof (cursorPaginate_run b P (Some "") None w _ _ Hp HP Hn2 eq_refl
                  (List.Forall_nil _)) as Hr.
    cbv zeta in Hr. cbn [last_start last_end] in Hr. exact Hr.
  - intros Ha pre d post HL Hd.
    exact (cursorPaginate_after_row b P a w pre post d Hp HP Ha HL Hd).
  - intros Ha Hm.
    pose proof (cursor_after_run b a None w Ha) as Hc. rewrite Hm in Hc.
    pose proof (cursorPaginate_run b P (Some a) None w _ _ Hp HP Hc eq_refl
                  (List.Forall_nil _)) as Hr.
    cbv zeta in Hr. cbn [last_start last_end] in Hr. rewrite Hr.
    apply String.eqb_neq in Ha. simpl. rewrite Ha. reflexivity.
Qed.

(** X10: [cursorPaginate()] with a [beforeCursor] (and no [afterCursor])
    naming a row of the result gives the first [perPage] rows of the
    result before it, counted from the start of the result, not the
    [perPage] rows just before the cursor; a [beforeCursor] whose
    document does not exist gives the first page.  Either way
    [hasPrevPage] is true. *)
Theorem cursorPaginate_before (b : QueryBuilder) (P : nat) (bc : string) (w : world) :
  plain_constraints (constraints b) = true -> 1 <= P -> bc <> "" ->
  let L := run_query where_holds order_docs (w_store w) (qb_coll b) (constraints b) in
  let w' := log (IORead (qb_coll b)) (log (IORead (qb_coll b ++ "/" ++ bc)) w) in
  (forall pre d post, L = (pre ++ d :: post)%list -> snap_id d = bc ->
     cursorPaginate where_holds order_docs b P None (Some bc) w =
       (Ok (cursor_page_of P pre true), w')) /\
  (w_store w !! (qb_coll b, bc) = None ->
     cursorPaginate where_holds order_docs b P None (Some bc) w =
       (Ok (cursor_page_of P L true), w')).
Proof.
  intros Hp HP Hb L w'.
  assert (Hbt : opt_truthy None || opt_truthy (Some bc) = true).
  { simpl. apply String.eqb_neq in Hb. rewrite Hb. reflexivity. }
  split.
  - intros pre d post HL Hd.
    assert (Hin : w_store w !! (qb_coll b, bc) = Some (snap_data d)).
    { rewrite <- Hd. apply (run_query_in_store _ _ (constraints b)); [exact Hp|].
      fold L. rewrite HL. apply in_or_app. right. left. reflexivity. }
    assert (Hn : ~ In (snap_id d) (map snap_id pre)).
    { apply (nodup_split_notin pre post d). rewrite <- HL.
      apply nodup_ids_run_query; assumption. }
    pose proof (cursor_before_run b bc w Hb) as Hc. rewrite Hin in Hc.
    pose proof (cursorPaginate_run b P None (Some bc) w _ _ Hp HP Hc eq_refl
                  ltac:(repeat constructor; eexists; right; reflexivity)) as Hr.
    cbv zeta in Hr. cbn [last_start last_end] in Hr. rewrite Hr, Hbt. fold L. rewrite HL.
    rewrite (before_split_id _ d) by (simpl; congruence). reflexivity.
  - intros Hm.
    pose proof (cursor_before_run b bc w Hb) as Hc. rewrite Hm in Hc.
    pose proof (cursorPaginate_run b P None (Some bc) w _ _ Hp HP Hc eq_refl
                  (List.Forall_nil _)) as Hr.
    cbv zeta in Hr. cbn [last_start last_end] in Hr. rewrite Hr, Hbt. reflexivity.
Qed.

(** X11: following [nextCursor]: when a page of the rows [R] (a suffix of
    the result of a [where]/[orderBy] query whose document ids are
    non-empty) has a next page, its [nextCursor] passed back as
    [afterCursor] gives the page of the rows of [R] after the first
    [perPage], so consecutive pages neither skip nor repeat rows. *)
Theorem cursorPaginate_next (b : QueryBuilder) (P : nat) (w : world) :
  plain_constraints (constraints b) = true -> 1 <= P ->
  let L := run_query where_holds order_docs (w_store w) (qb_coll b) (constraints b) in
  Forall (fun d => snap_id d <> "") L ->
  forall (pre R : list snap) (prev : bool),
    L = (pre ++ R)%list -> P < length R ->
    exists n, cp_nextCursor (cursor_page_of P R prev) = Some n /\
      fst (cursorPaginate where_holds order_docs b P (Some n) None w) =
        Ok (cursor_page_of P (drop P R) true).
Proof.
  intros Hp HP L Hne pre R prev HL HR.
  destruct (last (firstn P R)) as [d|] eqn:El.
  2:{ apply last_None in El. apply (f_equal length) in El.
      rewrite length_firstn in El. simpl in El. lia. }
  apply last_Some in El as [xs Hxs].
  assert (HL' : L = ((pre ++ xs) ++ d :: drop P R)%list).
  { rewrite HL, <- (take_drop P R) at 1. rewrite Hxs. rewrite <- !app_assoc. reflexivity. }
  assert (Hd : snap_id d <> "").
  { rewrite List.Forall_forall in Hne. apply Hne. rewrite HL'.
    apply in_or_app. right. left. reflexivity. }
  exists (snap_id d). split.
  - unfold cursor_page_of. cbv zeta. apply Nat.ltb_lt in HR. rewrite HR, Hxs, last_snoc.
    reflexivity.
  - rewrite (cursorPaginate_after_row b P (snap_id d) w (pre ++ xs) (drop P R) d
               Hp HP Hd HL' eq_refl).
    reflexivity.
Qed.

(** X12: [cursorPaginate({ perPage: 0 })] on a query whose result is not
    empty (and whose own limit, if any, is not 0) throws a [TypeError]
    ([docs[docs.length - 1].id] on an empty page) after its read; on an
    empty result it returns an empty page without cursors. *)
Theorem cursorPaginate_zero (b : QueryBuilder) (w : world) :
  last_limit (constraints b) <> Some 0 ->
  (run_query where_holds order_docs (w_store w) (qb_coll b) (constraints b) <> [] ->
   cursorPaginate where_holds order_docs b 0 None None w =
     (Err "TypeError: Cannot read properties of undefined (reading 'id')",
      log (IORead (qb_coll b)) w)) /\
  (run_query where_holds order_docs (w_store w) (qb_coll b) (constraints b) = [] ->
   cursorPaginate where_holds order_docs b 0 None None w =
     (Ok {| cp_data := []; cp_nextCursor := None; cp_prevCursor := None;
            hasNextPage := false; hasPrevPage := false |},
      log (IORead (qb_coll b)) w)).
Proof.
  intros Hl.
  unfold cursorPaginate.
  rewrite (bind_ok _ _ _ _ _ (proj1 (cursor_none_run b w))). cbv beta.
  rewrite (bind_ok _ _ _ _ _ (getDocs_run _ _ _ _ w)).
  change (constraints b ++ [] ++ [CLimit (0 + 1)])%list with (constraints b ++ [CLimit 1])%list.
  pose proof (head_run_query_limit where_holds order_docs (w_store w) (qb_coll b)
                (constraints b) 0 Hl) as Hh.
  destruct (run_query where_holds order_docs (w_store w) (qb_coll b) (constraints b ++ [CLimit 1]))
    as [|x l]; simpl in Hh.
  - destruct (run_query where_holds order_docs (w_store w) (qb_coll b) (constraints b));
      [|discriminate]. split; intros H; [contradiction|reflexivity].
  - destruct (run_query where_holds order_docs (w_store w) (qb_coll b) (constraints b));
      [discriminate|]. split; intros H; [reflexivity|discriminate].
Qed.

End Cursors.

Lemma ceil_div_gt (t p n : Z) :
  (0 <= t)%Z -> (0 < p)%Z -> (n < ceil_div t p)%Z <-> (n * p < t)%Z.
Proof.
  intros Ht Hp. unfold ceil_div.
  pose proof (Z.div_mod t p ltac:(lia)) as Hd.
  pose proof (Z.mod_pos_bound t p Hp) as Hm.
  destruct (Z.eqb (t mod p) 0) eqn:E.
  - apply Z.eqb_eq in E. rewrite E in Hd. split; intros H; nia.
  - apply Z.eqb_neq in E. split; intros H; nia.
Qed.

Lemma after_last_firstn (L : list snap) (k : nat) (d : snap) :
  List.NoDup (map snap_id L) -> last (firstn k L) = Some d -> after d L = drop k L.
Proof.
  intros Hn Hl. apply last_Some in Hl as [xs Hxs].
  assert (HL : L = (xs ++ d :: drop k L)%list).
  { rewrite <- (take_drop k L) at 1. rewrite Hxs, <- app_assoc. reflexivity. }
  rewrite HL at 1. apply after_split.
  apply (nodup_split_notin xs (drop k L) d). rewrite <- HL. exact Hn.
Qed.

Section Paged.

Variable where_holds : string -> string -> value -> obj -> bool.
Variable order_docs : list (string * string) -> list snap -> list snap.
(** [orderBy] reorders the result set. *)
Hypothesis order_perm : forall os l, Permutation (order_docs os l) l.

(** X13: [paginate({ perPage, page })] with [perPage > 0] on a query of
    [where]/[orderBy] constraints counts the result, then (for a page past
    the first) reads the rows before the page to find its start, then
    reads the page: it holds the result's rows from position
    [(page - 1) * perPage] on, at most [perPage] of them (the first page
    for [page <= 0]); [total] is the size of the result, [hasMorePages]
    tells whether [page * perPage] is below it, and for [page >= 1] a
    non-empty page has [from] and [to] the 1-based positions of its first
    and last rows, while an empty page has both 0.  Nothing is written. *)
Theorem paginate_spec (b : QueryBuilder) (perPage page : Z) (w : world) :
  plain_constraints (constraints b) = true -> (0 < perPage)%Z ->
  let L := run_query where_holds order_docs (w_store w) (qb_coll b) (constraints b) in
  let off := Z.to_nat ((page - 1) * perPage) in
  let rows := firstn (Z.to_nat perPage) (drop off L) in
  exists p w', paginate where_holds order_docs b perPage page w = (Ok p, w') /\
    w_store w' = w_store w /\
    w_trace w' = (w_trace w ++ repeat (IORead (qb_coll b))
                                (if (0 <? (page - 1) * perPage)%Z then 3 else 2))%list /\
    pg_data p = map to_plain rows /\
    pg_firstDoc p = head rows /\ pg_lastDoc p = last rows /\
    pm_total (pg_meta p) = Z.of_nat (length L) /\
    (pm_hasMorePages (pg_meta p) = true <-> (page * perPage < Z.of_nat (length L))%Z) /\
    (rows <> [] -> (1 <= page)%Z ->
       pm_from (pg_meta p) = (Z.of_nat off + 1)%Z /\
       pm_to (pg_meta p) = Z.of_nat (off + length rows)) /\
    (rows = [] -> pm_from (pg_meta p) = 0%Z /\ pm_to (pg_meta p) = 0%Z).
Proof.
  intros Hp Hpos L off rows.
  assert (Hnd : List.NoDup (map snap_id L)) by (apply nodup_ids_run_query; assumption).
  assert (Hq0 : forall n, run_query where_holds order_docs (w_store w) (qb_coll b)
            (constraints b ++ [CLimit n])%list = firstn n L)
    by (intros n; exact (run_query_page where_holds order_docs _ _ _ n JRNull Hp)).
  unfold paginate. cbn -[run_query].
  replace (Z.leb perPage 0) with false by (symmetry; apply Z.leb_gt; lia).
  destruct (Z.ltb 0 ((page - 1) * perPage)) eqn:Eo; cbn -[run_query];
    change (Z.to_nat ((page - 1) * perPage)) with off; fold L.
  - assert (Hs : run_query where_holds order_docs (w_store w) (qb_coll b)
              (constraints b ++ CLimit (Z.to_nat perPage)
                 :: match last (run_query where_holds order_docs (w_store w) (qb_coll b)
                                  (constraints b ++ [CLimit off])%list) with
                    | Some lastDoc => [CStartAfter lastDoc]
                    | None => []
                    end)%list = rows).
    { rewrite Hq0. destruct (last (firstn off L)) as [d|] eqn:El.
      - assert (Hq : run_query where_holds order_docs (w_store w) (qb_coll b)
                  (constraints b ++ CLimit (Z.to_nat perPage) :: [CStartAfter d])%list =
                  firstn (Z.to_nat perPage) (after d L))
          by exact (run_query_page where_holds order_docs _ _ _ _ (JRDoc d) Hp).
        rewrite Hq, (after_last_firstn L off d Hnd El). reflexivity.
      - rewrite Hq0. apply last_None in El.
        assert (HL0 : L = []).
        { apply length_zero_iff_nil. apply (f_equal length) in El.
          rewrite length_firstn in El. simpl in El. apply Z.ltb_lt in Eo.
          unfold off in El. lia. }
        unfold rows. rewrite HL0, drop_nil. reflexivity. }
    rewrite Hs.
    do 2 eexists. split; [reflexivity|].
    cbn [w_store w_trace log repeat pg_data pg_meta pg_firstDoc pg_lastDoc
         pm_total pm_hasMorePages pm_from pm_to].
    rewrite length_map.
    split; [reflexivity|]. split; [rewrite <- !app_assoc; reflexivity|].
    split; [reflexivity|]. split; [reflexivity|]. split; [reflexivity|].
    split; [reflexivity|]. split.
    { rewrite Z.ltb_lt. apply ceil_div_gt; lia. }
    split.
    { intros Hne Hpg. destruct (length rows) as [|n] eqn:Elen.
      - exfalso. apply Hne, length_zero_iff_nil, Elen.
      - cbn. unfold off. rewrite Nat2Z.inj_add, Z2Nat.id by nia. split; lia. }
    { intros He. replace (length rows) with 0%nat by (rewrite He; reflexivity).
      split; reflexivity. }
  - assert (Hs : run_query where_holds order_docs (w_store w) (qb_coll b)
              (constraints b ++ [CLimit (Z.to_nat perPage)])%list = rows).
    { rewrite Hq0. assert (Hoff : off = 0%nat) by (apply Z.ltb_ge in Eo; unfold off; lia).
      unfold rows. rewrite Hoff. reflexivity. }
    rewrite Hs.
    do 2 eexists. split; [reflexivity|].
    cbn [w_store w_trace log repeat pg_data pg_meta pg_firstDoc pg_lastDoc
         pm_total pm_hasMorePages pm_from pm_to].
    rewrite length_map.
    split; [reflexivity|]. split; [rewrite <- !app_assoc; reflexivity|].
    split; [reflexivity|]. split; [reflexivity|]. split; [reflexivity|].
    split; [reflexivity|]. split.
    { rewrite Z.ltb_lt. apply ceil_div_gt; lia. }
    split.
    { intros Hne Hpg. destruct (length rows) as [|n] eqn:Elen.
      - exfalso. apply Hne, length_zero_iff_nil, Elen.
      - cbn. unfold off. rewrite Nat2Z.inj_add, Z2Nat.id by nia. split; lia. }
    { intros He. replace (length rows) with 0%nat by (rewrite He; reflexivity).
      split; reflexivity. }
Qed.


End Paged.

(** ** Witnesses *)

Lemma findOrFail_spec_witness :
  findOrFail users (VStr "u1") users_world =
    (Ok (obj_spread [("id", VStr "u1")] [("name", VStr "A")]),
     log (IORead ("users" ++ "/" ++ "u1")) users_world).
Proof.
  destruct (findOrFail_spec users (VStr "u1") "u1" users_world ltac:(reflexivity)) as [H _].
  rewrite H. vm_compute. reflexivity.
Defined.

Lemma load_spec_witness :
  exists m,
    fst (load users (VNum 42) (set_store {[("users", "42") := [("name", VStr "A")]]} empty_world))
      = Ok (Some m) /\
    obj_get (attributes m) "id" = Some (VStr "42").
Proof.
  pose proof (load_spec users (VNum 42) "42"
                (set_store {[("users", "42") := [("name", VStr "A")]]} empty_world)
                ltac:(vm_compute; reflexivity)) as H.
  cbv zeta in H. destruct H as [_ [_ H]].
  destruct (H [("name", VStr "A")] ltac:(vm_compute; reflexivity))
    as [m [Hm [_ [_ [_ [_ Hid]]]]]].
  exists m. split; [exact Hm|]. apply Hid. reflexivity.
Defined.

Lemma toJSON_includes_id_witness :
  head (map fst (toJSON gym)) = Some "id" /\
  obj_get (toJSON gym) "id" = Some (VStr "42").
Proof.
  destruct (toJSON_includes_id gym
              ltac:(vm_compute; repeat constructor; intros Hx; inversion Hx))
    as [Hh [Hi _]].
  split; [exact Hh|]. rewrite Hi. vm_compute. reflexivity.
Defined.

Lemma destroy_spec_witness :
  w_store (snd (destroy users (VNum 42)
                  (set_store {[("users", "42") := [("name", VStr "A")]]} empty_world)))
    !! ("users", "42") = None.
Proof.
  pose proof (destroy_spec users (VNum 42) "42"
                (set_store {[("users", "42") := [("name", VStr "A")]]} empty_world)
                ltac:(vm_compute; reflexivity)) as H.
  cbv zeta in H. destruct H as [_ [H _]].
  destruct (H eq_refl [("name", VStr "A")] "42" ltac:(vm_compute; reflexivity)
              ltac:(vm_compute; reflexivity) ltac:(discriminate)) as [_ [_ Hs]].
  rewrite Hs. vm_compute. reflexivity.
Defined.

Lemma count_exists_first_witness :
  fst (qb_count all_where keep_order (query users) users_world) = Ok 3.
Proof.
  pose proof (count_exists_first all_where keep_order (query users) users_world
                ltac:(vm_compute; congruence)) as H.
  cbv zeta in H. destruct H as [H _]. rewrite H. vm_compute. reflexivity.
Defined.

Lemma cursorPaginate_after_witness :
  fst (cursorPaginate all_where keep_order (query users) 1 None None users_world) =
    Ok (cursor_page_of 1 (run_query all_where keep_order three_users "users" []) false).
Proof.
  pose proof (cursorPaginate_after all_where keep_order ltac:(intros; reflexivity)
                (query users) 1 "u1" users_world ltac:(reflexivity) ltac:(lia)) as H.
  cbv zeta in H. destruct H as [H _]. rewrite H. reflexivity.
Defined.

Lemma cursorPaginate_before_witness :
  fst (cursorPaginate all_where keep_order (query users) 1 None (Some "zz") users_world) =
    Ok (cursor_page_of 1 (run_query all_where keep_order three_users "users" []) true).
Proof.
  pose proof (cursorPaginate_before all_where keep_order ltac:(intros; reflexivity)
                (query users) 1 "zz" users_world ltac:(reflexivity) ltac:(lia)
                ltac:(discriminate)) as H.
  cbv zeta in H. destruct H as [_ H]. rewrite H by (vm_compute; reflexivity). reflexivity.
Defined.

Lemma cursorPaginate_next_witness :
  exists n,
    cp_nextCursor (cursor_page_of 1 (run_query all_where keep_order three_users "users" []) false)
      = Some n /\
    fst (cursorPaginate all_where keep_order (query users) 1 (Some n) None users_world) =
      Ok (cursor_page_of 1 (drop 1 (run_query all_where keep_order three_users "users" [])) true).
Proof.
  exact (cursorPaginate_next all_where keep_order ltac:(intros; reflexivity)
           (query users) 1 users_world ltac:(reflexivity) ltac:(lia)
           ltac:(vm_compute; repeat constructor; intros Hx; discriminate Hx)
           [] (run_query all_where keep_order three_users "users" []) false eq_refl
           ltac:(vm_compute; lia)).
Defined.

Lemma cursorPaginate_zero_witness :
  cursorPaginate all_where keep_order (query users) 0 None None users_world =
    (Err "TypeError: Cannot read properties of undefined (reading 'id')",
     log (IORead "users") users_world).
Proof.
  destruct (cursorPaginate_zero all_where keep_order (query users) users_world
              ltac:(vm_compute; congruence)) as [H _].
  apply H. vm_compute. congruence.
Defined.

Lemma paginate_spec_witness :
  exists p w',
    paginate all_where keep_order (query users) 2 2 users_world = (Ok p, w') /\
    pg_data p = map to_plain (firstn 2 (drop 2 (run_query all_where keep_order three_users "users" []))).
Proof.
  destruct (paginate_spec all_where keep_order ltac:(intros; reflexivity)
              (query users) 2 2 users_world ltac:(reflexivity) ltac:(lia))
    as [p [w' [H [_ [_ [Hd _]]]]]].
  exists p, w'. split; [exact H|exact Hd].
Defined.

